(** * CELL coordinates (sashite/cell.js): a shallow embedding and its properties

    The development follows the TypeScript sources:
    - [constants.ts]  the three bounds,
    - [errors.ts]     the message table and the error class,
    - [coordinate.ts] the [Coordinate] class and the three encoders,
    - [parser.ts]     the character classes, the decoders, [parse],
                      [validate] and [isValid],
    - [formatter.ts]  [format].

    A JavaScript string is modelled by the list of its UTF-16 code units
    (what [charCodeAt] reads and [String.fromCharCode] writes), each a [Z].
    A JavaScript [number] passed by a caller is modelled by [number] below;
    once the constructor has validated it, it is an integer and is kept
    as a [Z]. *)

From Stdlib Require Import ZArith List Bool Lia String Ascii DecimalString.
From stdpp Require Import gmap list.

Import ListNotations.
Local Open Scope Z_scope.

(** ** JavaScript values *)

(** A string: its sequence of UTF-16 code units. *)
Definition jsstring := list Z.

(** The code units of an ASCII literal, to write tokens readably. *)
Definition str (s : string) : jsstring :=
  map (fun a => Z.of_N (N_of_ascii a)) (list_ascii_of_string s).

(** A JavaScript number as a caller may supply it: an integer, a finite
    non-integer lying strictly between [fl] and [fl + 1], or one of the three
    special values. *)
Inductive number : Type :=
| Int (z : Z)
| Frac (fl : Z)
| NaN
| PosInf
| NegInf.

Definition Number_isInteger (n : number) : bool :=
  match n with Int _ => true | _ => false end.

(** [n < k], [n > k] and [n >= k] for an integer bound [k]. *)
Definition num_lt (n : number) (k : Z) : bool :=
  match n with
  | Int z => z <? k
  | Frac fl => fl <? k
  | NegInf => true
  | NaN | PosInf => false
  end.

Definition num_gt (n : number) (k : Z) : bool :=
  match n with
  | Int z => k <? z
  | Frac fl => k <=? fl
  | PosInf => true
  | NaN | NegInf => false
  end.

Definition num_ge (n : number) (k : Z) : bool :=
  match n with
  | Int z => k <=? z
  | Frac fl => k <=? fl
  | PosInf => true
  | NaN | NegInf => false
  end.

(** The integer carried by a number for which [Number_isInteger] holds. *)
Definition int_value (n : number) : Z :=
  match n with Int z => z | _ => 0 end.

(** [String.fromCharCode]: every argument is reduced to 16 bits. *)
Definition String_fromCharCode (codes : list Z) : jsstring :=
  map (fun c => c mod 65536) codes.

(** [Number.prototype.toString] on an integer: its decimal numeral. *)
Definition Number_toString (n : Z) : jsstring :=
  str (NilZero.string_of_int (Z.to_int n)).

(** ** constants.ts *)

Definition MAX_DIMENSIONS : nat := 3.
Definition MAX_INDEX_VALUE : Z := 255.
Definition MAX_STRING_LENGTH : nat := 7.

(** ** errors.ts *)

(** The keys of the frozen [ErrorMessages] table. *)
Inductive ErrorMessages : Type :=
| EMPTY_INPUT
| INPUT_TOO_LONG
| INVALID_START
| UNEXPECTED_CHARACTER
| LEADING_ZERO
| TOO_MANY_DIMENSIONS
| INDEX_OUT_OF_RANGE
| NO_INDICES.

(** The text stored under each key. *)
Definition message (m : ErrorMessages) : string :=
  match m with
  | EMPTY_INPUT => "empty input"
  | INPUT_TOO_LONG => "input exceeds 7 characters"
  | INVALID_START => "must start with lowercase letter"
  | UNEXPECTED_CHARACTER => "unexpected character"
  | LEADING_ZERO => "leading zero"
  | TOO_MANY_DIMENSIONS => "exceeds 3 dimensions"
  | INDEX_OUT_OF_RANGE => "index exceeds 255"
  | NO_INDICES => "at least one index required"
  end%string.

(** What a [throw] carries: the library's own [CellError], the built-in
    [RangeError] thrown by [Coordinate.at] (with the two values its message
    interpolates), or the built-in [TypeError] with which strict code and
    the built-in methods report a refused write to a frozen array. *)
Inductive exn : Type :=
| CellError (m : ErrorMessages)
| RangeError (i : number) (dims : nat)
| TypeError.

(** The result of running a piece of code: a value, an exception, or the
    exhaustion of the iteration budget given to a [while] loop. *)
Inductive outcome (A : Type) : Type :=
| Return (a : A)
| Throw (e : exn)
| OutOfFuel.
Arguments Return {A} a.
Arguments Throw {A} e.
Arguments OutOfFuel {A}.

Definition bind {A B} (m : outcome A) (k : A -> outcome B) : outcome B :=
  match m with
  | Return a => k a
  | Throw e => Throw e
  | OutOfFuel => OutOfFuel
  end.

Notation "'do' x <- m ; k" := (bind m (fun x => k))
  (at level 10, x name, m at level 100, k at level 200).

(** [try { body } catch { handler }]. *)
Definition try_catch {A} (body : outcome A) (handler : exn -> outcome A) : outcome A :=
  match body with
  | Throw e => handler e
  | r => r
  end.

(** ** coordinate.ts *)

Definition encodeToLower (index : Z) : jsstring :=
  if index <? 26 then String_fromCharCode [97 + index]
  else
    let adjusted := index - 26 in
    let first := adjusted / 26 in
    let second := Z.rem adjusted 26 in
    String_fromCharCode [97 + first; 97 + second].

Definition encodeToUpper (index : Z) : jsstring :=
  if index <? 26 then String_fromCharCode [65 + index]
  else
    let adjusted := index - 26 in
    let first := adjusted / 26 in
    let second := Z.rem adjusted 26 in
    String_fromCharCode [65 + first; 65 + second].

Definition encodeToNumber (index : Z) : jsstring :=
  Number_toString (index + 1).

(** The private state of a [Coordinate]: the validated indices. *)
Record Coordinate : Type := mkCoordinate { indices : list Z }.

(** The [for] loop of the constructor: the first offending value throws. *)
Fixpoint check_indices (args : list number) : outcome (list Z) :=
  match args with
  | [] => Return []
  | index :: rest =>
      if negb (Number_isInteger index) || num_lt index 0 || num_gt index MAX_INDEX_VALUE
      then Throw (CellError INDEX_OUT_OF_RANGE)
      else do checked <- check_indices rest; Return (int_value index :: checked)
  end.

(** [new Coordinate(...args)]. *)
Definition Coordinate_new (args : list number) : outcome Coordinate :=
  if (length args =? 0)%nat then Throw (CellError NO_INDICES)
  else if (MAX_DIMENSIONS <? length args)%nat then Throw (CellError TOO_MANY_DIMENSIONS)
  else do checked <- check_indices args; Return (mkCoordinate checked).

Definition dimensions (c : Coordinate) : nat := length (indices c).

(** [c.at(i)]. *)
Definition Coordinate_at (c : Coordinate) (i : number) : outcome Z :=
  if negb (Number_isInteger i) || num_lt i 0 || num_ge i (Z.of_nat (length (indices c)))
  then Throw (RangeError i (length (indices c)))
  else Return (nth (Z.to_nat (int_value i)) (indices c) 0).

(** The loop of [toString], from dimension [dim] on, with [result] built so far. *)
Fixpoint toString_loop (dim : nat) (result : jsstring) (rest : list Z) : jsstring :=
  match rest with
  | [] => result
  | index :: rest' =>
      let dimensionType := (dim mod 3)%nat in
      let result' :=
        match dimensionType with
        | 0%nat => result ++ encodeToLower index
        | 1%nat => result ++ encodeToNumber index
        | 2%nat => result ++ encodeToUpper index
        | _ => result
        end in
      toString_loop (S dim) result' rest'
  end.

Definition toString (c : Coordinate) : jsstring :=
  toString_loop 0 [] (indices c).

(** ** formatter.ts *)

Definition format (args : list number) : outcome jsstring :=
  do c <- Coordinate_new args; Return (toString c).


(** ** parser.ts *)

Definition isLowercase (charCode : Z) : bool :=
  (97 <=? charCode) && (charCode <=? 122).

Definition isUppercase (charCode : Z) : bool :=
  (65 <=? charCode) && (charCode <=? 90).

Definition isDigit (charCode : Z) : bool :=
  (48 <=? charCode) && (charCode <=? 57).

Inductive DimensionType : Type :=
| Lowercase
| Integer
| Uppercase.

(** [chars[i]!] on the run collected by the parser. A run holds at least the
    code unit that opened it, and the decoders read position 1 only when the
    run has another length than 1, so both reads are in range. *)
Definition char_at (chars : list Z) (i : nat) : Z := nth i chars 0.

Definition decodeLowercase (chars : list Z) : Z :=
  if (length chars =? 1)%nat then char_at chars 0 - 97
  else
    let first := char_at chars 0 - 97 in
    let second := char_at chars 1 - 97 in
    26 + first * 26 + second.

Definition decodeUppercase (chars : list Z) : Z :=
  if (length chars =? 1)%nat then char_at chars 0 - 65
  else
    let first := char_at chars 0 - 65 in
    let second := char_at chars 1 - 65 in
    26 + first * 26 + second.

Definition decodeInteger (chars : list Z) : Z :=
  let value := fold_left (fun value c => value * 10 + (c - 48)) chars 0 in
  value - 1.

(** The inner loop [while (pos < s.length && isClass(s.charCodeAt(pos)))]:
    [rest] is the input from [pos] on; the code units of the class are pushed
    on [chars] and the input left after the run is returned with them. *)
Fixpoint collect (isClass : Z -> bool) (chars : list Z) (rest : jsstring)
  : list Z * jsstring :=
  match rest with
  | c :: rest' =>
      if isClass c then collect isClass (chars ++ [c]) rest' else (chars, rest)
  | [] => (chars, [])
  end.

(** The outer loop [while (pos < s.length)], with [rest] the input from [pos]
    on, [acc] the contents of [result.indices], and [fuel] a bound on the
    number of iterations. *)
Fixpoint parse_loop (fuel : nat) (expectedType : DimensionType) (acc : list Z)
    (rest : jsstring) : outcome (list Z) :=
  match rest with
  | [] => Return acc
  | charCode :: rest1 =>
      match fuel with
      | O => OutOfFuel
      | S fuel' =>
          if (MAX_DIMENSIONS <=? length acc)%nat
          then Throw (CellError TOO_MANY_DIMENSIONS)
          else
            match expectedType with
            | Lowercase =>
                if negb (isLowercase charCode)
                then Throw (CellError UNEXPECTED_CHARACTER)
                else
                  let '(chars, rest') := collect isLowercase [charCode] rest1 in
                  let index := decodeLowercase chars in
                  if index >? MAX_INDEX_VALUE
                  then Throw (CellError INDEX_OUT_OF_RANGE)
                  else parse_loop fuel' Integer (acc ++ [index]) rest'
            | Integer =>
                if negb (isDigit charCode)
                then Throw (CellError UNEXPECTED_CHARACTER)
                else if charCode =? 48
                then Throw (CellError LEADING_ZERO)
                else
                  let '(chars, rest') := collect isDigit [charCode] rest1 in
                  let index := decodeInteger chars in
                  if (index <? 0) || (index >? MAX_INDEX_VALUE)
                  then Throw (CellError INDEX_OUT_OF_RANGE)
                  else parse_loop fuel' Uppercase (acc ++ [index]) rest'
            | Uppercase =>
                if negb (isUppercase charCode)
                then Throw (CellError UNEXPECTED_CHARACTER)
                else
                  let '(chars, rest') := collect isUppercase [charCode] rest1 in
                  let index := decodeUppercase chars in
                  if index >? MAX_INDEX_VALUE
                  then Throw (CellError INDEX_OUT_OF_RANGE)
                  else parse_loop fuel' Lowercase (acc ++ [index]) rest'
            end
      end
  end.

(** [parse] up to the end of its loop: the three guards, then the loop run
    from position 0. Every iteration consumes at least one code unit, so
    [length s] iterations are given. *)
Definition parse_indices (s : jsstring) : outcome (list Z) :=
  if (length s =? 0)%nat then Throw (CellError EMPTY_INPUT)
  else if (MAX_STRING_LENGTH <? length s)%nat then Throw (CellError INPUT_TOO_LONG)
  else
    let firstCharCode := nth 0 s 0 in
    if negb (isLowercase firstCharCode) then Throw (CellError INVALID_START)
    else parse_loop (length s) Lowercase [] s.

(** [parse]: the loop, then [new Coordinate(...result.indices)]. *)
Definition parse (s : jsstring) : outcome Coordinate :=
  do collected <- parse_indices s; Coordinate_new (map Int collected).

Definition validate (s : jsstring) : outcome unit :=
  do _c <- parse s; Return tt.

Definition isValid (s : jsstring) : outcome bool :=
  try_catch (do _c <- parse s; Return true) (fun _ => Return false).

(** ** The encoding in the words of the specification *)

(** A letter alphabet with base code point [base]: one letter below 26, two
    letters from 26 on. *)
Definition spec_letters (base v : Z) : jsstring :=
  if v <? 26 then [base + v]
  else [base + (v - 26) / 26; base + (v - 26) mod 26].

(** The decimal numeral of [n], most significant digit first. *)
Fixpoint spec_decimal_digits (fuel : nat) (n : Z) : jsstring :=
  match fuel with
  | O => []
  | S fuel' =>
      if n <? 10 then [48 + n]
      else spec_decimal_digits fuel' (n / 10) ++ [48 + n mod 10]
  end.

Definition spec_decimal (n : Z) : jsstring :=
  spec_decimal_digits (Z.to_nat n) n.

(** The alphabet of dimension position [p] is chosen by [p mod 3]. *)
Definition spec_encode (p : nat) (v : Z) : jsstring :=
  match (p mod 3)%nat with
  | 0%nat => spec_letters 97 v
  | 1%nat => spec_decimal (v + 1)
  | _ => spec_letters 65 v
  end.

Definition spec_serialize (vs : list Z) : jsstring :=
  concat (imap spec_encode vs).

(** A value the constructor accepts: an integer in [0, 255]. *)
Definition valid_index (n : number) : Prop :=
  exists z, n = Int z /\ 0 <= z <= 255.

(** An index a [Coordinate] may hold. *)
Definition in_range (v : Z) : Prop := 0 <= v <= 255.

(** ** Objects: identity, the private field and freezing *)

(** The value model above keeps the indices of a Coordinate as a list. To
    speak of the array object that the getter hands out, objects live in a
    heap: a reference is a [loc]; an array has its contents and the flag set
    by [Object.freeze]. *)
Definition loc := positive.

Record array_object : Type := mkArray { contents : list number; frozen : bool }.

(** What a reference points to: an array, or an instance of [Coordinate], of
    which the private field [#indices] is kept: a reference to an array. The
    class has no public own property. *)
Inductive heap_object : Type :=
| ArrayObject (a : array_object)
| CoordinateInstance (indices_field : loc).

(** Object creation ([new], [[...indices]], an array literal): a reference
    not yet in use. *)
Definition alloc (x : heap_object) (h : gmap loc heap_object)
  : loc * gmap loc heap_object :=
  let l := fresh (dom h) in (l, <[l := x]> h).

(** [Object.freeze(obj)]. Freezing concerns properties; the private field of
    an instance is not one, so an instance stays as it is here. *)
Definition Object_freeze (l : loc) (h : gmap loc heap_object)
  : gmap loc heap_object :=
  match h !! l with
  | Some (ArrayObject a) => <[l := ArrayObject (mkArray (contents a) true)]> h
  | _ => h
  end.

(** Any attempt to change an array in place (an element assignment, a write
    to [length], [push], [pop], [splice], [sort], ...), given by the function
    [f] it would apply to the contents. A frozen array refuses it and stays as
    it is; [raises] tells how the refusal shows: a [TypeError] (an assignment
    in strict code, a write made by a built-in method) or nothing at all (an
    assignment in non-strict code, which is ignored). Aimed at an instance of
    [Coordinate], a write can only make a public property and does not reach
    the private field. *)
Definition array_mutate (raises : bool) (l : loc) (f : list number -> list number)
    (h : gmap loc heap_object) : outcome unit * gmap loc heap_object :=
  match h !! l with
  | Some (ArrayObject a) =>
      if frozen a
      then ((if raises then Throw TypeError else Return tt), h)
      else (Return tt, <[l := ArrayObject (mkArray (f (contents a)) false)]> h)
  | Some (CoordinateInstance _) => (Return tt, h)
  | None => (Throw TypeError, h)
  end.

(** The constructor with its last line spelled out:
    [this.#indices = Object.freeze([...indices])]. The result is the
    reference to the new instance. *)
Definition Coordinate_construct (args : list number) (h : gmap loc heap_object)
  : outcome loc * gmap loc heap_object :=
  match Coordinate_new args with
  | Return c =>
      let '(l, h1) := alloc (ArrayObject (mkArray (map Int (indices c)) false)) h in
      let h2 := Object_freeze l h1 in
      let '(o, h3) := alloc (CoordinateInstance l) h2 in
      (Return o, h3)
  | Throw e => (Throw e, h)
  | OutOfFuel => (OutOfFuel, h)
  end.

(** [get indices()]: [return this.#indices], the reference held by the
    private field; a receiver without that field is a [TypeError]. *)
Definition get_indices (o : loc) (h : gmap loc heap_object) : outcome loc :=
  match h !! o with
  | Some (CoordinateInstance l) => Return l
  | _ => Throw TypeError
  end.

(** The Coordinate value that the methods [dimensions], [at] and [toString]
    read through the private field. *)
Definition Coordinate_of (o : loc) (h : gmap loc heap_object) : option Coordinate :=
  match get_indices o h with
  | Return l =>
      match h !! l with
      | Some (ArrayObject a) => Some (mkCoordinate (map int_value (contents a)))
      | _ => None
      end
  | _ => None
  end.

(** What a program holding Coordinates and arrays can do next. The private
    field cannot be named outside the class, so an assignment to a property
    of an instance, [indices] included (it has a getter and no setter), is
    the most a caller can aim at the instance itself. *)
Inductive operation : Type :=
| OpNew (args : list number)
| OpParse (s : jsstring)
| OpFormat (args : list number)
| OpIndices (o : loc)
| OpDimensions (o : loc)
| OpAt (o : loc) (i : number)
| OpToString (o : loc)
| OpAssignProperty (o : loc) (value : loc)
| OpArrayLiteral (vs : list number)
| OpMutate (raises : bool) (l : loc) (f : list number -> list number)
| OpFreeze (l : loc).

(** The heap after one operation. The getters and methods only read, and no
    method of the class assigns the private field; the arrays that [parse]
    builds while it runs ([chars], [result.indices]) are unreachable once it
    returns and are left out. *)
Definition exec (op : operation) (h : gmap loc heap_object)
  : gmap loc heap_object :=
  match op with
  | OpNew args | OpFormat args => (Coordinate_construct args h).2
  | OpParse s =>
      match parse_indices s with
      | Return collected => (Coordinate_construct (map Int collected) h).2
      | _ => h
      end
  | OpIndices _ | OpDimensions _ | OpAt _ _ | OpToString _ => h
  | OpAssignProperty _ _ => h
  | OpArrayLiteral vs => (alloc (ArrayObject (mkArray vs false)) h).2
  | OpMutate raises l f => (array_mutate raises l f h).2
  | OpFreeze l => Object_freeze l h
  end.

Definition exec_all (ops : list operation) (h : gmap loc heap_object)
  : gmap loc heap_object :=
  fold_left (fun h op => exec op h) ops h.

(** The objects that no operation changes: a frozen array, and an instance
    (its private field is assigned once, by the constructor). *)
Definition settled (x : heap_object) : Prop :=
  match x with
  | ArrayObject a => frozen a = true
  | CoordinateInstance _ => True
  end.

(** ** One iteration of the parse loop, case by case *)

(** The character class, the decoder and the successor state that the
    [switch] of [parse] attaches to each expected type. *)
Definition class_of (ty : DimensionType) : Z -> bool :=
  match ty with
  | Lowercase => isLowercase
  | Integer => isDigit
  | Uppercase => isUppercase
  end.

Definition decode_of (ty : DimensionType) : list Z -> Z :=
  match ty with
  | Lowercase => decodeLowercase
  | Integer => decodeInteger
  | Uppercase => decodeUppercase
  end.

Definition next_type (ty : DimensionType) : DimensionType :=
  match ty with
  | Lowercase => Integer
  | Integer => Uppercase
  | Uppercase => Lowercase
  end.

(** The body of one [case] of the [switch]: on the current code unit and the
    input after it, either a throw or the decoded index with the input left
    after the run. [parse_loop_unfold] below shows that [parse_loop] is this
    body, iterated. *)
Definition read_run (ty : DimensionType) (charCode : Z) (rest1 : jsstring)
  : outcome (Z * jsstring) :=
  if negb (class_of ty charCode) then Throw (CellError UNEXPECTED_CHARACTER)
  else if match ty with Integer => charCode =? 48 | _ => false end
  then Throw (CellError LEADING_ZERO)
  else
    let '(chars, rest') := collect (class_of ty) [charCode] rest1 in
    let index := decode_of ty chars in
    if match ty with Integer => index <? 0 | _ => false end || (index >? MAX_INDEX_VALUE)
    then Throw (CellError INDEX_OUT_OF_RANGE)
    else Return (index, rest').

(** The input left after a run does not continue it. *)
Definition stops_at (isClass : Z -> bool) (rest : jsstring) : Prop :=
  forall c, head rest = Some c -> isClass c = false.

(** A run of the alphabet of [ty] that decodes to an index: not empty, made
    of the class of [ty], without a leading zero, and decoding into range. *)
Definition run_of (ty : DimensionType) (run : list Z) : Prop :=
  run <> [] /\
  Forall (fun c => class_of ty c = true) run /\
  (ty = Integer -> head run <> Some 48) /\
  in_range (decode_of ty run).

(** A code unit outside the three ASCII classes. *)
Definition outside_classes (c : Z) : Prop :=
  isLowercase c = false /\ isDigit c = false /\ isUppercase c = false.

(** ** Tokens cut into runs *)

Definition encode_of (ty : DimensionType) : Z -> jsstring :=
  match ty with
  | Lowercase => encodeToLower
  | Integer => encodeToNumber
  | Uppercase => encodeToUpper
  end.

(** Consecutive runs, the first of the alphabet of [ty], the alphabets
    following the cycle. *)
Fixpoint token_runs (ty : DimensionType) (runs : list (list Z)) : Prop :=
  match runs with
  | [] => True
  | run :: runs' => run_of ty run /\ token_runs (next_type ty) runs'
  end.

Fixpoint decode_runs (ty : DimensionType) (runs : list (list Z)) : list Z :=
  match runs with
  | [] => []
  | run :: runs' => decode_of ty run :: decode_runs (next_type ty) runs'
  end.

(** Every letter run has at most two letters. *)
Fixpoint short_letter_runs (ty : DimensionType) (runs : list (list Z)) : Prop :=
  match runs with
  | [] => True
  | run :: runs' =>
      (ty <> Integer -> (length run <= 2)%nat) /\
      short_letter_runs (next_type ty) runs'
  end.

(** The alphabet expected after [runs] have been read, starting from [ty]. *)
Fixpoint type_after (ty : DimensionType) (runs : list (list Z)) : DimensionType :=
  match runs with
  | [] => ty
  | _ :: runs' => type_after (next_type ty) runs'
  end.

(** The input [tail] that follows [runs] does not continue the last of
    them. *)
Fixpoint runs_stop (ty : DimensionType) (runs : list (list Z)) (tail : jsstring)
  : Prop :=
  match runs with
  | [] => True
  | _ :: runs' =>
      match runs' with
      | [] => stops_at (class_of ty) tail
      | _ :: _ => runs_stop (next_type ty) runs' tail
      end
  end.

(** A code unit of one of the three classes. *)
Definition in_classes (c : Z) : bool :=
  isLowercase c || isDigit c || isUppercase c.

(** The failures the loop can throw. *)
Definition loop_failure (m : ErrorMessages) : Prop :=
  m = TOO_MANY_DIMENSIONS \/ m = UNEXPECTED_CHARACTER \/
  m = LEADING_ZERO \/ m = INDEX_OUT_OF_RANGE.

(** Closes [run_of ty run] on a literal run. *)
Ltac literal_run :=
  split; [discriminate|];
  split; [repeat (apply List.Forall_cons; [reflexivity|]); apply List.Forall_nil|];
  split; [intros _; cbn; discriminate|];
  unfold in_range; vm_compute; split; discriminate.

(** * Properties *)

(** ** Ranges checked by enumeration *)

Lemma byte_range_forall (P : Z -> Prop) `{forall v, Decision (P v)} :
  forallb (fun v => bool_decide (P v)) (map Z.of_nat (seq 0 256)) = true ->
  forall v, 0 <= v <= 255 -> P v.
Proof.
  intros Hall v Hv.
  rewrite forallb_forall in Hall.
  apply (bool_decide_eq_true_1 (P v)).
  apply Hall.
  apply in_map_iff. exists (Z.to_nat v). split; [lia|].
  apply in_seq. lia.
Qed.

(** ** The message table *)

(** X15: the failure kinds are told apart by their message alone: two keys
    of the message table with the same text are the same key. *)
Lemma message_inj m1 m2 : message m1 = message m2 -> m1 = m2.
Proof. destruct m1, m2; cbn; intros Hm; try reflexivity; discriminate Hm. Qed.

(** ** The encoders *)

Lemma encodeToLower_letters v : in_range v -> encodeToLower v = spec_letters 97 v.
Proof.
  revert v. unfold in_range.
  apply (byte_range_forall (fun v => encodeToLower v = spec_letters 97 v)).
  vm_compute. reflexivity.
Qed.

Lemma encodeToUpper_letters v : in_range v -> encodeToUpper v = spec_letters 65 v.
Proof.
  revert v. unfold in_range.
  apply (byte_range_forall (fun v => encodeToUpper v = spec_letters 65 v)).
  vm_compute. reflexivity.
Qed.

Lemma encodeToNumber_decimal v : in_range v -> encodeToNumber v = spec_decimal (v + 1).
Proof.
  revert v. unfold in_range.
  apply (byte_range_forall (fun v => encodeToNumber v = spec_decimal (v + 1))).
  vm_compute. reflexivity.
Qed.

(** ** The constructor *)

Lemma index_guard_valid n :
  negb (Number_isInteger n) || num_lt n 0 || num_gt n MAX_INDEX_VALUE = false <->
  valid_index n.
Proof.
  unfold valid_index, MAX_INDEX_VALUE. split.
  - destruct n as [z| | | |]; cbn; try discriminate.
    intros Hg. apply orb_false_elim in Hg as [Hlo Hhi].
    exists z. split; [reflexivity|lia].
  - intros (z & -> & Hz). cbn. apply orb_false_intro; lia.
Qed.

Lemma check_indices_valid args :
  Forall valid_index args -> check_indices args = Return (map int_value args).
Proof.
  induction 1 as [|n args Hn _ IH]; [reflexivity|].
  cbn [check_indices]. apply index_guard_valid in Hn. rewrite Hn, IH. reflexivity.
Qed.

Lemma check_indices_invalid args :
  ~ Forall valid_index args ->
  check_indices args = Throw (CellError INDEX_OUT_OF_RANGE).
Proof.
  induction args as [|n args IH]; intros Hbad.
  - destruct Hbad. constructor.
  - cbn [check_indices].
    destruct (negb (Number_isInteger n) || num_lt n 0 || num_gt n MAX_INDEX_VALUE)
      eqn:Hg; [reflexivity|].
    apply index_guard_valid in Hg.
    rewrite IH; [reflexivity|].
    intros Hall. apply Hbad. constructor; assumption.
Qed.

Lemma valid_index_dec n : valid_index n \/ ~ valid_index n.
Proof.
  destruct (negb (Number_isInteger n) || num_lt n 0 || num_gt n MAX_INDEX_VALUE) eqn:Hg.
  - right. intros Hv. apply index_guard_valid in Hv. congruence.
  - left. apply index_guard_valid. exact Hg.
Qed.

Lemma Forall_valid_index_dec args :
  Forall valid_index args \/ ~ Forall valid_index args.
Proof.
  induction args as [|n args [IH|IH]].
  - left. constructor.
  - destruct (valid_index_dec n) as [Hn|Hn].
    + left. constructor; assumption.
    + right. intros Hall. apply Hn. apply (Forall_inv Hall).
  - right. intros Hall. apply IH. apply (Forall_inv_tail Hall).
Qed.

Lemma valid_index_Int z : valid_index (Int z) <-> in_range z.
Proof.
  unfold valid_index, in_range. split.
  - intros (z' & [= <-] & Hz). exact Hz.
  - intros Hz. exists z. split; [reflexivity|exact Hz].
Qed.

Lemma Forall_valid_index_Int vs :
  Forall valid_index (map Int vs) <-> Forall in_range vs.
Proof.
  rewrite List.Forall_map. apply Forall_iff. intros z. apply valid_index_Int.
Qed.

Lemma map_int_value_Int vs : map int_value (map Int vs) = vs.
Proof.
  induction vs as [|v vs IH]; [reflexivity|]. cbn. rewrite IH. reflexivity.
Qed.

Lemma Forall_in_range_int_value args :
  Forall valid_index args -> Forall in_range (map int_value args).
Proof.
  induction 1 as [|n args (z & -> & Hz) _ IH]; constructor; assumption.
Qed.

(** The constructor in one equation: the count is checked first, then the
    values. *)
Lemma Coordinate_new_cases args :
  (length args = 0%nat /\ Coordinate_new args = Throw (CellError NO_INDICES)) \/
  ((3 < length args)%nat /\
     Coordinate_new args = Throw (CellError TOO_MANY_DIMENSIONS)) \/
  ((1 <= length args <= 3)%nat /\ ~ Forall valid_index args /\
     Coordinate_new args = Throw (CellError INDEX_OUT_OF_RANGE)) \/
  ((1 <= length args <= 3)%nat /\ Forall valid_index args /\
     Coordinate_new args = Return (mkCoordinate (map int_value args))).
Proof.
  unfold Coordinate_new, MAX_DIMENSIONS.
  destruct (Nat.eqb_spec (length args) 0) as [H0|H0]; [left; auto|].
  destruct (Nat.ltb_spec 3 (length args)) as [H3|H3]; [right; left; auto|].
  right; right.
  destruct (Forall_valid_index_dec args) as [Hall|Hbad].
  - right. rewrite (check_indices_valid _ Hall). repeat split; try lia; assumption.
  - left. rewrite (check_indices_invalid _ Hbad). repeat split; try lia; assumption.
Qed.

Lemma Coordinate_new_Return args c :
  Coordinate_new args = Return c ->
  (1 <= length args <= 3)%nat /\ Forall valid_index args /\
  indices c = map int_value args.
Proof.
  intros Hc.
  destruct (Coordinate_new_cases args)
    as [[_ H]|[[_ H]|[(_ & _ & H)|(Hlen & Hall & H)]]];
    rewrite H in Hc; try discriminate.
  injection Hc as <-. auto.
Qed.

(** C3 (as stated, refuted): the two count failures are not one failure
    kind. With no index the constructor throws the [NO_INDICES] message, with
    four it throws [TOO_MANY_DIMENSIONS]; no single exception, whatever its
    name, is thrown in both cases. *)
Lemma Coordinate_new_count_failures_differ :
  ~ exists InvalidIndexCount : exn,
      Coordinate_new [] = Throw InvalidIndexCount /\
      Coordinate_new [Int 0; Int 0; Int 0; Int 0] = Throw InvalidIndexCount.
Proof.
  intros (e & H0 & H4). vm_compute in H0, H4. congruence.
Qed.

(** C3 (amended): constructing a Coordinate from N values, and [format] on
    the same values, fails with [NO_INDICES] when N = 0, with
    [TOO_MANY_DIMENSIONS] when N > 3, with [INDEX_OUT_OF_RANGE] when
    1 <= N <= 3 and some value is not an integer in [0, 255], and succeeds
    otherwise, holding exactly the given values. *)
Theorem Coordinate_new_outcome (args : list number) :
  (length args = 0%nat ->
     Coordinate_new args = Throw (CellError NO_INDICES) /\
     format args = Throw (CellError NO_INDICES)) /\
  ((3 < length args)%nat ->
     Coordinate_new args = Throw (CellError TOO_MANY_DIMENSIONS) /\
     format args = Throw (CellError TOO_MANY_DIMENSIONS)) /\
  ((1 <= length args <= 3)%nat -> ~ Forall valid_index args ->
     Coordinate_new args = Throw (CellError INDEX_OUT_OF_RANGE) /\
     format args = Throw (CellError INDEX_OUT_OF_RANGE)) /\
  ((1 <= length args <= 3)%nat -> Forall valid_index args ->
     Coordinate_new args = Return (mkCoordinate (map int_value args)) /\
     format args = Return (toString (mkCoordinate (map int_value args)))).
Proof.
  unfold format.
  destruct (Coordinate_new_cases args)
    as [[Hlen H]|[[Hlen H]|[(Hlen & Hbad & H)|(Hlen & Hall & H)]]];
    rewrite H; cbn [bind]; repeat split; intros; try reflexivity;
    try lia; contradiction.
Qed.

Lemma Coordinate_new_outcome_witness :
  format [] = Throw (CellError NO_INDICES) /\
  format [Int 0; Int 0; Int 0; Int 0] = Throw (CellError TOO_MANY_DIMENSIONS) /\
  format [Int 4; Frac 1] = Throw (CellError INDEX_OUT_OF_RANGE) /\
  format [Int 4; Int 3] = Return (str "e4").
Proof.
  split; [|split; [|split]].
  - apply (Coordinate_new_outcome []). reflexivity.
  - apply (Coordinate_new_outcome [Int 0; Int 0; Int 0; Int 0]). cbn. lia.
  - apply (Coordinate_new_outcome [Int 4; Frac 1]).
    + cbn. lia.
    + intros Hall. inversion Hall as [|? ? _ Htl]. inversion Htl as [|? ? Hv _].
      destruct Hv as (z & Hz & _). discriminate Hz.
  - apply (Coordinate_new_outcome [Int 4; Int 3]).
    + cbn. lia.
    + repeat constructor; eexists; (split; [reflexivity|lia]).
Defined.

(** ** Serialisation *)

Lemma toString_loop_spec rest :
  forall dim result,
    Forall in_range rest ->
    toString_loop dim result rest =
    result ++ concat (imap (fun p => spec_encode (dim + p)) rest).
Proof.
  induction rest as [|v rest IH]; intros dim result Hall.
  - cbn. rewrite app_nil_r. reflexivity.
  - apply Forall_cons in Hall as [Hv Hall].
    cbn [toString_loop imap concat].
    rewrite IH by assumption.
    unfold spec_encode at 2. rewrite Nat.add_0_r.
    assert (Hlt : (dim mod 3 < 3)%nat) by (apply Nat.mod_upper_bound; lia).
    rewrite (imap_ext (fun p => spec_encode (S dim + p))
                      ((fun p => spec_encode (dim + p)) ∘ S) rest)
      by (intros i x _; cbn; f_equal; lia).
    destruct (dim mod 3)%nat as [|[|[|k]]]; [| | |lia].
    + rewrite encodeToLower_letters, <- app_assoc by assumption. reflexivity.
    + rewrite encodeToNumber_decimal, <- app_assoc by assumption. reflexivity.
    + rewrite encodeToUpper_letters, <- app_assoc by assumption. reflexivity.
Qed.

Lemma toString_spec c :
  Forall in_range (indices c) -> toString c = spec_serialize (indices c).
Proof.
  intros Hall. unfold toString, spec_serialize.
  rewrite toString_loop_spec by assumption. reflexivity.
Qed.

(** C4: [format] is the constructor followed by [toString], which encodes
    position [p] with the alphabet chosen by [p mod 3]; a letter index below
    26 is the one letter [base + v], an index in [26, 255] the two letters
    [base + (v - 26) / 26] and [base + (v - 26) mod 26]; the integer alphabet
    writes the decimal numeral of [v + 1]; and the three sample tokens. *)
Theorem format_encoding :
  (forall args c,
      Coordinate_new args = Return c ->
      format args = Return (toString c) /\
      toString c = spec_serialize (indices c)) /\
  (forall v, 0 <= v < 26 ->
      encodeToLower v = [97 + v] /\ encodeToUpper v = [65 + v]) /\
  (forall v, 26 <= v <= 255 ->
      encodeToLower v = [97 + (v - 26) / 26; 97 + (v - 26) mod 26] /\
      encodeToUpper v = [65 + (v - 26) / 26; 65 + (v - 26) mod 26]) /\
  (forall v, 0 <= v <= 255 -> encodeToNumber v = spec_decimal (v + 1)) /\
  format [Int 4; Int 3] = Return (str "e4") /\
  format [Int 0; Int 0; Int 0] = Return (str "a1A") /\
  format [Int 255; Int 255; Int 255] = Return (str "iv256IV").
Proof.
  split; [|split; [|split; [|split; [|split; [|split]]]]];
    [| | | |vm_compute; reflexivity ..].
  - intros args c Hc. unfold format. rewrite Hc. split; [reflexivity|].
    apply toString_spec.
    apply Coordinate_new_Return in Hc as (_ & Hall & ->).
    apply Forall_in_range_int_value. exact Hall.
  - intros v Hv.
    rewrite encodeToLower_letters, encodeToUpper_letters by (unfold in_range; lia).
    unfold spec_letters. destruct (Z.ltb_spec v 26); [split; reflexivity|lia].
  - intros v Hv.
    rewrite encodeToLower_letters, encodeToUpper_letters by (unfold in_range; lia).
    unfold spec_letters. destruct (Z.ltb_spec v 26); [lia|split; reflexivity].
  - intros v Hv. apply encodeToNumber_decimal. exact Hv.
Qed.

Lemma format_encoding_witness :
  toString (mkCoordinate [30; 9]) = spec_serialize [30; 9] /\
  encodeToLower 4 = [101] /\
  encodeToUpper 255 = [73; 86] /\
  encodeToNumber 255 = str "256".
Proof.
  destruct format_encoding as (Hfmt & Hone & Htwo & Hnum & _).
  split; [|split; [|split]].
  - apply (Hfmt [Int 30; Int 9] (mkCoordinate [30; 9])). reflexivity.
  - apply (Hone 4). lia.
  - apply (Htwo 255). lia.
  - apply (Hnum 255). lia.
Defined.

(** ** Indexed access *)

(** C10: [c.at(i)] returns the stored index at position [i] when [i] is an
    integer with 0 <= i < c.dimensions, and otherwise (negative, too large,
    or not an integer, as 0.5) throws a [RangeError], which is not a
    [CellError]. *)
Theorem Coordinate_at_outcome (c : Coordinate) (i : number) :
  (forall k, i = Int k -> 0 <= k < Z.of_nat (dimensions c) ->
     exists v, indices c !! Z.to_nat k = Some v /\ Coordinate_at c i = Return v) /\
  ((forall k, i = Int k -> k < 0 \/ Z.of_nat (dimensions c) <= k) ->
     Coordinate_at c i = Throw (RangeError i (dimensions c)) /\
     forall m, Coordinate_at c i <> Throw (CellError m)) /\
  Coordinate_at c (Frac 0) = Throw (RangeError (Frac 0) (dimensions c)).
Proof.
  unfold Coordinate_at, dimensions. split; [|split].
  - intros k -> Hk. cbn.
    destruct (Z.ltb_spec k 0); [lia|].
    destruct (Z.leb_spec (Z.of_nat (length (indices c))) k); [lia|]. cbn.
    destruct (lookup_lt_is_Some_2 (indices c) (Z.to_nat k)) as [v Hv]; [lia|].
    exists v. split; [exact Hv|].
    f_equal. apply nth_lookup_Some with (d := 0) in Hv. exact Hv.
  - intros Hout.
    assert (Hg : negb (Number_isInteger i) || num_lt i 0
                 || num_ge i (Z.of_nat (length (indices c))) = true).
    { destruct i as [k| | | |]; cbn; try reflexivity.
      destruct (Hout k eq_refl) as [Hneg|Hbig].
      - destruct (Z.ltb_spec k 0); [reflexivity|lia].
      - destruct (Z.leb_spec (Z.of_nat (length (indices c))) k); [|lia].
        apply orb_true_r. }
    rewrite Hg. split; [reflexivity|]. intros m. discriminate.
  - reflexivity.
Qed.

Lemma Coordinate_at_outcome_witness :
  Coordinate_at (mkCoordinate [4; 3; 2]) (Int 1) = Return 3 /\
  Coordinate_at (mkCoordinate [4; 3]) (Int 2) = Throw (RangeError (Int 2) 2) /\
  Coordinate_at (mkCoordinate [4; 3]) (Int (-1)) = Throw (RangeError (Int (-1)) 2) /\
  Coordinate_at (mkCoordinate [4; 3]) NaN = Throw (RangeError NaN 2).
Proof.
  split; [|split; [|split]].
  - destruct (proj1 (Coordinate_at_outcome (mkCoordinate [4; 3; 2]) (Int 1)) 1 eq_refl)
      as (v & Hv & Hat); [cbn; lia|].
    cbn in Hv. injection Hv as <-. exact Hat.
  - apply (Coordinate_at_outcome (mkCoordinate [4; 3]) (Int 2)).
    intros k [= <-]. right. cbn. lia.
  - apply (Coordinate_at_outcome (mkCoordinate [4; 3]) (Int (-1))).
    intros k [= <-]. left. lia.
  - apply (Coordinate_at_outcome (mkCoordinate [4; 3]) NaN).
    intros k Hk. discriminate Hk.
Defined.

(** ** The parse loop *)

Lemma parse_loop_nil fuel ty acc : parse_loop fuel ty acc [] = Return acc.
Proof. destruct fuel; reflexivity. Qed.

Lemma parse_loop_unfold fuel ty acc charCode rest1 :
  parse_loop (S fuel) ty acc (charCode :: rest1) =
  if (MAX_DIMENSIONS <=? length acc)%nat
  then Throw (CellError TOO_MANY_DIMENSIONS)
  else do r <- read_run ty charCode rest1;
       parse_loop fuel (next_type ty) (acc ++ [r.1]) r.2.
Proof.
  cbn [parse_loop]. unfold read_run.
  destruct (MAX_DIMENSIONS <=? length acc)%nat; [reflexivity|].
  destruct ty; cbn [class_of decode_of next_type orb].
  - destruct (negb (isLowercase charCode)); [reflexivity|].
    destruct (collect isLowercase [charCode] rest1) as [chars rest'].
    destruct (decodeLowercase chars >? MAX_INDEX_VALUE); reflexivity.
  - destruct (negb (isDigit charCode)); [reflexivity|].
    destruct (charCode =? 48); [reflexivity|].
    destruct (collect isDigit [charCode] rest1) as [chars rest'].
    destruct ((decodeInteger chars <? 0) || (decodeInteger chars >? MAX_INDEX_VALUE));
      reflexivity.
  - destruct (negb (isUppercase charCode)); [reflexivity|].
    destruct (collect isUppercase [charCode] rest1) as [chars rest'].
    destruct (decodeUppercase chars >? MAX_INDEX_VALUE); reflexivity.
Qed.

(** *** The inner loop *)

Section InnerLoop.

Variable isClass : Z -> bool.

Lemma stops_at_nil : stops_at isClass [].
Proof. intros c Hc. discriminate Hc. Qed.

Lemma stops_at_cons c rest :
  isClass c = false -> stops_at isClass (c :: rest).
Proof. intros Hc c' [= <-]. exact Hc. Qed.

(** What [collect] returns: the run of the class at the head of the input,
    pushed on [chars], and the input after it. *)
Lemma collect_spec rest :
  forall chars chars' rest',
    collect isClass chars rest = (chars', rest') ->
    exists run,
      chars' = chars ++ run /\ rest = run ++ rest' /\
      Forall (fun c => isClass c = true) run /\ stops_at isClass rest'.
Proof.
  induction rest as [|c rest IH]; intros chars chars' rest' Hc; cbn in Hc.
  - injection Hc as <- <-. exists []. rewrite app_nil_r.
    repeat split; [constructor|apply stops_at_nil].
  - destruct (isClass c) eqn:Hcls.
    + destruct (IH _ _ _ Hc) as (run & -> & -> & Hrun & Hstop).
      exists (c :: run). rewrite <- app_assoc. repeat split; try assumption.
      constructor; assumption.
    + injection Hc as <- <-. exists []. rewrite app_nil_r.
      repeat split; [constructor|apply stops_at_cons; exact Hcls].
Qed.

Lemma collect_run run :
  forall chars rest',
    Forall (fun c => isClass c = true) run -> stops_at isClass rest' ->
    collect isClass chars (run ++ rest') = (chars ++ run, rest').
Proof.
  induction run as [|c run IH]; intros chars rest' Hrun Hstop.
  - rewrite app_nil_r. cbn. destruct rest' as [|c rest']; [reflexivity|].
    cbn. rewrite (Hstop c eq_refl). reflexivity.
  - apply Forall_cons in Hrun as [Hc Hrun].
    cbn. rewrite Hc, IH by assumption. rewrite <- app_assoc. reflexivity.
Qed.

(** Appending a code unit outside the class to the input does not change
    the run that is read. *)
Lemma collect_app_stop c post rest :
  isClass c = false ->
  forall chars chars' rest',
    collect isClass chars rest = (chars', rest') ->
    collect isClass chars (rest ++ c :: post) = (chars', rest' ++ c :: post).
Proof.
  intros Hc chars chars' rest' Hcol.
  destruct (collect_spec _ _ _ _ Hcol) as (run & -> & -> & Hrun & Hstop).
  rewrite <- app_assoc. apply collect_run; [exact Hrun|].
  destruct rest' as [|c' rest']; cbn.
  - apply stops_at_cons. exact Hc.
  - apply stops_at_cons. apply Hstop. reflexivity.
Qed.

End InnerLoop.

(** *** The decoders on a run of their class *)

Lemma isLowercase_true c : isLowercase c = true <-> 97 <= c <= 122.
Proof. unfold isLowercase. rewrite andb_true_iff. lia. Qed.

Lemma isUppercase_true c : isUppercase c = true <-> 65 <= c <= 90.
Proof. unfold isUppercase. rewrite andb_true_iff. lia. Qed.

Lemma isDigit_true c : isDigit c = true <-> 48 <= c <= 57.
Proof. unfold isDigit. rewrite andb_true_iff. lia. Qed.

Lemma decodeLowercase_nonneg chars :
  chars <> [] -> Forall (fun c => isLowercase c = true) chars ->
  0 <= decodeLowercase chars.
Proof.
  intros Hne Hall. unfold decodeLowercase, char_at.
  destruct chars as [|c1 [|c2 tl]]; [congruence| |].
  - apply Forall_cons in Hall as [H1 _]. apply isLowercase_true in H1. cbn. lia.
  - apply Forall_cons in Hall as [H1 Hall]. apply Forall_cons in Hall as [H2 _].
    apply isLowercase_true in H1, H2. cbn. lia.
Qed.

Lemma decodeUppercase_nonneg chars :
  chars <> [] -> Forall (fun c => isUppercase c = true) chars ->
  0 <= decodeUppercase chars.
Proof.
  intros Hne Hall. unfold decodeUppercase, char_at.
  destruct chars as [|c1 [|c2 tl]]; [congruence| |].
  - apply Forall_cons in Hall as [H1 _]. apply isUppercase_true in H1. cbn. lia.
  - apply Forall_cons in Hall as [H1 Hall]. apply Forall_cons in Hall as [H2 _].
    apply isUppercase_true in H1, H2. cbn. lia.
Qed.

(** *** One iteration *)

Lemma read_run_Return ty charCode rest1 index rest' :
  read_run ty charCode rest1 = Return (index, rest') ->
  exists run,
    charCode :: rest1 = run ++ rest' /\ run_of ty run /\
    index = decode_of ty run /\ stops_at (class_of ty) rest'.
Proof.
  unfold read_run.
  destruct (class_of ty charCode) eqn:Hcls; cbn [negb]; [|discriminate].
  destruct (match ty with Integer => charCode =? 48 | _ => false end) eqn:Hzero;
    [discriminate|].
  destruct (collect (class_of ty) [charCode] rest1) as [chars rest''] eqn:Hcol.
  destruct (collect_spec _ _ _ _ _ Hcol) as (run & -> & -> & Hrun & Hstop).
  destruct (_ || _) eqn:Hrange; [discriminate|].
  intros [= <- <-]. exists (charCode :: run).
  apply orb_false_elim in Hrange as [Hlo Hhi]. cbn [app] in Hlo, Hhi.
  assert (Hall : Forall (fun c => class_of ty c = true) (charCode :: run))
    by (constructor; assumption).
  repeat split; try assumption; try reflexivity.
  - discriminate.
  - intros -> [= ->]. discriminate Hzero.
  - destruct ty; cbn [decode_of class_of] in *.
    + apply decodeLowercase_nonneg; [discriminate|exact Hall].
    + lia.
    + apply decodeUppercase_nonneg; [discriminate|exact Hall].
  - unfold MAX_INDEX_VALUE in Hhi. lia.
Qed.

Lemma read_run_complete ty charCode run' rest' :
  run_of ty (charCode :: run') -> stops_at (class_of ty) rest' ->
  read_run ty charCode (run' ++ rest') =
  Return (decode_of ty (charCode :: run'), rest').
Proof.
  intros (_ & Hall & Hzero & Hlo & Hhi) Hstop.
  apply Forall_cons in Hall as [Hc Hall].
  unfold read_run. rewrite Hc. cbn [negb].
  assert (Hz : match ty with Integer => charCode =? 48 | _ => false end = false).
  { destruct ty; try reflexivity.
    destruct (Z.eqb_spec charCode 48) as [->|]; [|reflexivity].
    destruct (Hzero eq_refl). reflexivity. }
  rewrite Hz, collect_run by assumption. cbn [app].
  assert (Hr : match ty with
               | Integer => decode_of ty (charCode :: run') <? 0
               | _ => false
               end || (decode_of ty (charCode :: run') >? MAX_INDEX_VALUE) = false).
  { unfold MAX_INDEX_VALUE. apply orb_false_intro; [destruct ty|]; lia. }
  rewrite Hr. reflexivity.
Qed.

Lemma read_run_outside ty charCode rest1 :
  outside_classes charCode ->
  read_run ty charCode rest1 = Throw (CellError UNEXPECTED_CHARACTER).
Proof.
  intros (Hl & Hd & Hu). unfold read_run.
  destruct ty; cbn [class_of]; rewrite ?Hl, ?Hd, ?Hu; reflexivity.
Qed.

Lemma read_run_app_stop ty charCode rest1 index rest' c post :
  class_of ty c = false ->
  read_run ty charCode rest1 = Return (index, rest') ->
  read_run ty charCode (rest1 ++ c :: post) = Return (index, rest' ++ c :: post).
Proof.
  intros Hc. unfold read_run.
  destruct (negb (class_of ty charCode)); [discriminate|].
  destruct (match ty with Integer => charCode =? 48 | _ => false end);
    [discriminate|].
  destruct (collect (class_of ty) [charCode] rest1) as [chars rest''] eqn:Hcol.
  rewrite (collect_app_stop _ _ post _ Hc _ _ _ Hcol).
  destruct (_ || _); [discriminate|].
  intros [= <- <-]. reflexivity.
Qed.

Lemma read_run_app_stop_Throw ty charCode rest1 e c post :
  class_of ty c = false ->
  read_run ty charCode rest1 = Throw e ->
  read_run ty charCode (rest1 ++ c :: post) = Throw e.
Proof.
  intros Hc. unfold read_run.
  destruct (negb (class_of ty charCode)); [trivial|].
  destruct (match ty with Integer => charCode =? 48 | _ => false end);
    [trivial|].
  destruct (collect (class_of ty) [charCode] rest1) as [chars rest''] eqn:Hcol.
  rewrite (collect_app_stop _ _ post _ Hc _ _ _ Hcol).
  destruct (_ || _); [trivial|discriminate].
Qed.

Lemma read_run_fuel ty charCode rest1 : read_run ty charCode rest1 <> OutOfFuel.
Proof.
  unfold read_run.
  destruct (negb (class_of ty charCode)); [discriminate|].
  destruct (match ty with Integer => charCode =? 48 | _ => false end);
    [discriminate|].
  destruct (collect (class_of ty) [charCode] rest1) as [chars rest'].
  destruct (_ || _); discriminate.
Qed.

Lemma read_run_CellError ty charCode rest1 e :
  read_run ty charCode rest1 = Throw e -> exists m, e = CellError m.
Proof.
  unfold read_run.
  destruct (negb (class_of ty charCode)); [intros [= <-]; eauto|].
  destruct (match ty with Integer => charCode =? 48 | _ => false end);
    [intros [= <-]; eauto|].
  destruct (collect (class_of ty) [charCode] rest1) as [chars rest'].
  destruct (_ || _); [intros [= <-]; eauto|discriminate].
Qed.

Lemma read_run_shorter ty charCode rest1 index rest' :
  read_run ty charCode rest1 = Return (index, rest') ->
  (length rest' <= length rest1)%nat.
Proof.
  intros Hr. apply read_run_Return in Hr as (run & Heq & (Hne & _) & _).
  apply (f_equal (@length Z)) in Heq. rewrite length_app in Heq. cbn in Heq.
  destruct run; [congruence|]. cbn in Heq. lia.
Qed.

(** *** The outer loop *)

(** The loop does not exhaust a budget of one iteration per code unit. *)
Lemma parse_loop_fuel fuel :
  forall ty acc rest,
    (length rest <= fuel)%nat -> parse_loop fuel ty acc rest <> OutOfFuel.
Proof.
  induction fuel as [|fuel IH]; intros ty acc rest Hlen.
  - destruct rest; [discriminate|]. cbn in Hlen. lia.
  - destruct rest as [|c rest1]; [discriminate|].
    rewrite parse_loop_unfold.
    destruct (MAX_DIMENSIONS <=? length acc)%nat; [discriminate|].
    destruct (read_run ty c rest1) as [[index rest']| |] eqn:Hr; cbn [bind].
    + apply IH. apply read_run_shorter in Hr. cbn in Hlen. cbn. lia.
    + discriminate.
    + destruct (read_run_fuel _ _ _ Hr).
Qed.

Lemma parse_loop_fuel_irrel fuel1 :
  forall fuel2 ty acc rest,
    (length rest <= fuel1)%nat -> (length rest <= fuel2)%nat ->
    parse_loop fuel1 ty acc rest = parse_loop fuel2 ty acc rest.
Proof.
  induction fuel1 as [|fuel1 IH]; intros fuel2 ty acc rest H1 H2.
  - destruct rest; [rewrite !parse_loop_nil; reflexivity|]. cbn in H1. lia.
  - destruct rest as [|c rest1]; [rewrite !parse_loop_nil; reflexivity|].
    destruct fuel2 as [|fuel2]; [cbn in H2; lia|].
    rewrite !parse_loop_unfold.
    destruct (MAX_DIMENSIONS <=? length acc)%nat; [reflexivity|].
    destruct (read_run ty c rest1) as [[index rest']| |] eqn:Hr; cbn [bind];
      try reflexivity.
    apply read_run_shorter in Hr. cbn in H1, H2. apply IH; cbn; lia.
Qed.

Lemma parse_loop_CellError fuel :
  forall ty acc rest e,
    parse_loop fuel ty acc rest = Throw e -> exists m, e = CellError m.
Proof.
  induction fuel as [|fuel IH]; intros ty acc rest e.
  - destruct rest; discriminate.
  - destruct rest as [|c rest1]; [discriminate|].
    rewrite parse_loop_unfold.
    destruct (MAX_DIMENSIONS <=? length acc)%nat; [intros [= <-]; eauto|].
    destruct (read_run ty c rest1) as [[index rest']| |] eqn:Hr; cbn [bind].
    + apply IH.
    + intros [= <-]. eapply read_run_CellError. exact Hr.
    + discriminate.
Qed.

(** What the loop returns: the indices it started with, followed by one
    index in range per run read, never more than three in all. *)
Lemma parse_loop_Return fuel :
  forall ty acc rest l,
    parse_loop fuel ty acc rest = Return l ->
    (length acc <= 3)%nat -> Forall in_range acc ->
    (length l <= 3)%nat /\ Forall in_range l /\
    exists new, l = acc ++ new /\ (rest <> [] -> new <> []).
Proof.
  induction fuel as [|fuel IH]; intros ty acc rest l Hl Hacc Hrange.
  - destruct rest; [|discriminate]. injection Hl as <-.
    repeat split; try assumption. exists []. rewrite app_nil_r. auto.
  - destruct rest as [|c rest1].
    + injection Hl as <-.
      repeat split; try assumption. exists []. rewrite app_nil_r. auto.
    + rewrite parse_loop_unfold in Hl. unfold MAX_DIMENSIONS in Hl.
      destruct (Nat.leb_spec 3 (length acc)) as [|Hlt]; [discriminate|].
      destruct (read_run ty c rest1) as [[index rest']| |] eqn:Hr; cbn [bind] in Hl;
        try discriminate.
      apply read_run_Return in Hr as (run & _ & (_ & _ & _ & Hin) & -> & _).
      cbn [fst snd] in Hl.
      apply IH in Hl as (Hlen & Hall & new & -> & _).
      * repeat split; try assumption.
        exists (decode_of ty run :: new). rewrite <- app_assoc. split; [reflexivity|].
        discriminate.
      * rewrite length_app. cbn. lia.
      * apply Forall_app. split; [assumption|]. constructor; [assumption|constructor].
Qed.

(** The loop returns only when every code unit it was given lies in one of
    the three classes. *)
Lemma parse_loop_Return_classes fuel :
  forall ty acc rest l,
    parse_loop fuel ty acc rest = Return l ->
    Forall (fun c => ~ outside_classes c) rest.
Proof.
  induction fuel as [|fuel IH]; intros ty acc rest l Hl.
  - destruct rest; [constructor|discriminate].
  - destruct rest as [|c rest1]; [constructor|].
    rewrite parse_loop_unfold in Hl.
    destruct (MAX_DIMENSIONS <=? length acc)%nat; [discriminate|].
    destruct (read_run ty c rest1) as [[index rest']| |] eqn:Hr; cbn [bind] in Hl;
      try discriminate.
    apply read_run_Return in Hr as (run & -> & (_ & Hcls & _) & _ & _).
    apply Forall_app. split.
    + eapply Forall_impl; [exact Hcls|].
      intros a Ha (Hl' & Hd' & Hu'). destruct ty; cbn in Ha; congruence.
    + eapply IH. exact Hl.
Qed.

(** Reading one well-formed run. *)
Lemma parse_loop_run fuel ty acc run rest' :
  run_of ty run -> stops_at (class_of ty) rest' -> (length acc < 3)%nat ->
  parse_loop (S fuel) ty acc (run ++ rest') =
  parse_loop fuel (next_type ty) (acc ++ [decode_of ty run]) rest'.
Proof.
  intros Hrun Hstop Hacc.
  destruct run as [|c run']; [destruct Hrun as [Hne _]; congruence|].
  cbn [app]. rewrite parse_loop_unfold. unfold MAX_DIMENSIONS.
  destruct (Nat.leb_spec 3 (length acc)); [lia|].
  rewrite read_run_complete by assumption. reflexivity.
Qed.

(** With three indices read and input left, the loop throws before it looks
    at the input. *)
Lemma parse_loop_full fuel ty acc c rest1 :
  (3 <= length acc)%nat ->
  parse_loop (S fuel) ty acc (c :: rest1) = Throw (CellError TOO_MANY_DIMENSIONS).
Proof.
  intros Hacc. rewrite parse_loop_unfold. unfold MAX_DIMENSIONS.
  destruct (Nat.leb_spec 3 (length acc)); [reflexivity|lia].
Qed.

(** A code unit outside the classes, placed after an input the loop accepts
    with fewer than three indices, is reported as unexpected. *)
Lemma parse_loop_app_outside fuel :
  forall fuel' ty acc pre l c post,
    parse_loop fuel ty acc pre = Return l -> (length l < 3)%nat ->
    outside_classes c ->
    (length (pre ++ c :: post) <= fuel')%nat ->
    parse_loop fuel' ty acc (pre ++ c :: post) =
    Throw (CellError UNEXPECTED_CHARACTER).
Proof.
  assert (Hbase : forall fuel' ty acc c post,
             (length acc < 3)%nat -> outside_classes c ->
             (length (c :: post) <= fuel')%nat ->
             parse_loop fuel' ty acc (c :: post) =
             Throw (CellError UNEXPECTED_CHARACTER)).
  { intros [|fuel'] ty acc c post Hacc Hout Hlen; [cbn in Hlen; lia|].
    rewrite parse_loop_unfold. unfold MAX_DIMENSIONS.
    destruct (Nat.leb_spec 3 (length acc)); [lia|].
    rewrite read_run_outside by assumption. reflexivity. }
  induction fuel as [|fuel IH]; intros fuel' ty acc pre l c post Hl Hlen Hout Hfuel.
  - destruct pre; [|discriminate]. injection Hl as <-. apply Hbase; assumption.
  - destruct pre as [|c1 pre1].
    + injection Hl as <-. apply Hbase; assumption.
    + rewrite parse_loop_unfold in Hl. unfold MAX_DIMENSIONS in Hl.
      destruct (Nat.leb_spec 3 (length acc)) as [|Hacc]; [discriminate|].
      destruct (read_run ty c1 pre1) as [[index rest']| |] eqn:Hr; cbn [bind] in Hl;
        try discriminate.
      cbn [fst snd] in Hl.
      destruct fuel' as [|fuel']; [cbn in Hfuel; lia|].
      cbn [app]. rewrite parse_loop_unfold. unfold MAX_DIMENSIONS.
      destruct (Nat.leb_spec 3 (length acc)); [lia|].
      assert (Hc : class_of ty c = false)
        by (destruct Hout as (? & ? & ?); destruct ty; assumption).
      rewrite (read_run_app_stop _ _ _ _ _ _ post Hc Hr). cbn [bind fst snd].
      apply (IH _ _ _ _ _ _ _ Hl); try assumption.
      apply read_run_shorter in Hr.
      rewrite length_app in *. cbn in *. lia.
Qed.

(** Placed after an input the loop accepts with three indices, it is never
    looked at: the dimension count is reported. *)
Lemma parse_loop_app_outside_full fuel :
  forall fuel' ty acc pre l c post,
    parse_loop fuel ty acc pre = Return l -> (3 <= length l)%nat ->
    outside_classes c ->
    (length (pre ++ c :: post) <= fuel')%nat ->
    parse_loop fuel' ty acc (pre ++ c :: post) =
    Throw (CellError TOO_MANY_DIMENSIONS).
Proof.
  assert (Hbase : forall fuel' ty acc c post,
             (3 <= length acc)%nat ->
             (length (c :: post) <= fuel')%nat ->
             parse_loop fuel' ty acc (c :: post) =
             Throw (CellError TOO_MANY_DIMENSIONS)).
  { intros [|fuel'] ty acc c post Hacc Hlen; [cbn in Hlen; lia|].
    apply parse_loop_full. exact Hacc. }
  induction fuel as [|fuel IH]; intros fuel' ty acc pre l c post Hl Hlen Hout Hfuel.
  - destruct pre; [|discriminate]. injection Hl as <-. apply Hbase; assumption.
  - destruct pre as [|c1 pre1].
    + injection Hl as <-. apply Hbase; assumption.
    + rewrite parse_loop_unfold in Hl. unfold MAX_DIMENSIONS in Hl.
      destruct (Nat.leb_spec 3 (length acc)) as [|Hacc]; [discriminate|].
      destruct (read_run ty c1 pre1) as [[index rest']| |] eqn:Hr; cbn [bind] in Hl;
        try discriminate.
      cbn [fst snd] in Hl.
      destruct fuel' as [|fuel']; [cbn in Hfuel; lia|].
      cbn [app]. rewrite parse_loop_unfold. unfold MAX_DIMENSIONS.
      destruct (Nat.leb_spec 3 (length acc)); [lia|].
      assert (Hc : class_of ty c = false)
        by (destruct Hout as (? & ? & ?); destruct ty; assumption).
      rewrite (read_run_app_stop _ _ _ _ _ _ post Hc Hr). cbn [bind fst snd].
      apply (IH _ _ _ _ _ _ _ Hl); try assumption.
      apply read_run_shorter in Hr.
      rewrite length_app in *. cbn in *. lia.
Qed.

(** Placed after an input on which the loop throws, it changes nothing: the
    same failure is thrown. *)
Lemma parse_loop_app_outside_Throw fuel :
  forall fuel' ty acc pre e c post,
    parse_loop fuel ty acc pre = Throw e ->
    outside_classes c ->
    (length (pre ++ c :: post) <= fuel')%nat ->
    parse_loop fuel' ty acc (pre ++ c :: post) = Throw e.
Proof.
  induction fuel as [|fuel IH]; intros fuel' ty acc pre e c post He Hout Hfuel.
  - destruct pre; discriminate.
  - destruct pre as [|c1 pre1]; [discriminate|].
    destruct fuel' as [|fuel']; [cbn in Hfuel; lia|].
    cbn [app]. rewrite parse_loop_unfold in He |- *.
    destruct (MAX_DIMENSIONS <=? length acc)%nat; [exact He|].
    assert (Hc : class_of ty c = false)
      by (destruct Hout as (? & ? & ?); destruct ty; assumption).
    destruct (read_run ty c1 pre1) as [[index rest']|e'|] eqn:Hr; cbn [bind] in He;
      try discriminate.
    + rewrite (read_run_app_stop _ _ _ _ _ _ post Hc Hr). cbn [bind fst snd] in *.
      apply (IH _ _ _ _ _ _ _ He Hout).
      apply read_run_shorter in Hr.
      rewrite length_app in *. cbn in *. lia.
    + rewrite (read_run_app_stop_Throw _ _ _ _ _ post Hc Hr). exact He.
Qed.

(** ** parse *)

Lemma Coordinate_new_map_Int l :
  (1 <= length l <= 3)%nat -> Forall in_range l ->
  Coordinate_new (map Int l) = Return (mkCoordinate l).
Proof.
  intros Hlen Hall.
  destruct (Coordinate_new_cases (map Int l))
    as [[H0 _]|[[H3 _]|[(_ & Hbad & _)|(_ & _ & H)]]].
  - rewrite length_map in H0. lia.
  - rewrite length_map in H3. lia.
  - destruct Hbad. apply Forall_valid_index_Int. exact Hall.
  - rewrite H, map_int_value_Int. reflexivity.
Qed.

Lemma Coordinate_new_CellError args e :
  Coordinate_new args = Throw e -> exists m, e = CellError m.
Proof.
  destruct (Coordinate_new_cases args)
    as [[_ H]|[[_ H]|[(_ & _ & H)|(_ & _ & H)]]]; rewrite H;
    intros [= <-]; eauto.
Qed.

Lemma parse_indices_Return s l :
  parse_indices s = Return l ->
  (1 <= length l <= 3)%nat /\ Forall in_range l /\
  Forall (fun c => ~ outside_classes c) s.
Proof.
  unfold parse_indices.
  destruct (Nat.eqb_spec (length s) 0) as [|Hne]; [discriminate|].
  destruct (MAX_STRING_LENGTH <? length s)%nat; [discriminate|].
  destruct (negb (isLowercase (nth 0 s 0))); [discriminate|].
  intros Hl. split; [|split].
  - apply parse_loop_Return in Hl as (Hlen & _ & new & -> & Hnew);
      [|cbn; lia|constructor].
    split; [|exact Hlen].
    destruct new; [|cbn; lia].
    destruct Hnew; [|reflexivity]. intros ->. apply Hne. reflexivity.
  - apply parse_loop_Return in Hl as (_ & Hall & _); [exact Hall|cbn; lia|constructor].
  - eapply parse_loop_Return_classes. exact Hl.
Qed.

Lemma parse_indices_fuel s : parse_indices s <> OutOfFuel.
Proof.
  unfold parse_indices.
  destruct (length s =? 0)%nat; [discriminate|].
  destruct (MAX_STRING_LENGTH <? length s)%nat; [discriminate|].
  destruct (negb (isLowercase (nth 0 s 0))); [discriminate|].
  apply parse_loop_fuel. lia.
Qed.

Lemma parse_indices_CellError s e :
  parse_indices s = Throw e -> exists m, e = CellError m.
Proof.
  unfold parse_indices.
  destruct (length s =? 0)%nat; [intros [= <-]; eauto|].
  destruct (MAX_STRING_LENGTH <? length s)%nat; [intros [= <-]; eauto|].
  destruct (negb (isLowercase (nth 0 s 0))); [intros [= <-]; eauto|].
  apply parse_loop_CellError.
Qed.

(** [parse] is total: it returns a Coordinate or throws a [CellError]. *)
Lemma parse_cases s :
  (exists l, parse_indices s = Return l /\ parse s = Return (mkCoordinate l)) \/
  (exists m, parse s = Throw (CellError m)).
Proof.
  unfold parse.
  destruct (parse_indices s) as [l|e|] eqn:Hp; cbn [bind].
  - left. exists l. split; [reflexivity|].
    apply parse_indices_Return in Hp as (Hlen & Hall & _).
    apply Coordinate_new_map_Int; assumption.
  - right. apply parse_indices_CellError in Hp as [m ->]. eauto.
  - destruct (parse_indices_fuel _ Hp).
Qed.

Lemma parse_Return s c :
  parse s = Return c -> parse_indices s = Return (indices c).
Proof.
  intros Hc. destruct (parse_cases s) as [(l & Hl & Hp)|[m Hm]]; [|congruence].
  rewrite Hp in Hc. injection Hc as <-. exact Hl.
Qed.

Lemma parse_Throw_indices s e :
  parse s = Throw e <-> parse_indices s = Throw e.
Proof.
  unfold parse. destruct (parse_indices s) as [l| |] eqn:Hp; cbn [bind].
  - apply parse_indices_Return in Hp as (Hlen & Hall & _).
    rewrite Coordinate_new_map_Int by assumption. split; discriminate.
  - split; intros [= <-]; reflexivity.
  - split; discriminate.
Qed.

(** C5: when the guards and the loop of [parse] complete, the collected
    indices number between one and three, each lies in [0, 255], and the
    construction that ends [parse] succeeds on them. *)
Theorem parse_loop_result_constructs (s : jsstring) (l : list Z) :
  parse_indices s = Return l ->
  (1 <= length l <= 3)%nat /\ Forall in_range l /\
  Coordinate_new (map Int l) = Return (mkCoordinate l) /\
  parse s = Return (mkCoordinate l).
Proof.
  intros Hl. pose proof (parse_indices_Return _ _ Hl) as (Hlen & Hall & _).
  pose proof (Coordinate_new_map_Int _ Hlen Hall) as Hnew.
  repeat split; try assumption; try lia.
  unfold parse. rewrite Hl. exact Hnew.
Qed.

Lemma parse_loop_result_constructs_witness :
  Coordinate_new (map Int [26; 9]) = Return (mkCoordinate [26; 9]).
Proof.
  apply (parse_loop_result_constructs (str "aa10") [26; 9]). reflexivity.
Defined.

(** C8: [validate] succeeds exactly when [parse] does and throws exactly
    what [parse] throws; [isValid] always returns a boolean, [true] exactly
    when [parse] succeeds and [false] exactly when [parse] throws. *)
Theorem validate_isValid_follow_parse (s : jsstring) :
  (validate s = Return tt <-> exists c, parse s = Return c) /\
  (forall e, validate s = Throw e <-> parse s = Throw e) /\
  (isValid s = Return true <-> exists c, parse s = Return c) /\
  (isValid s = Return false <-> exists e, parse s = Throw e) /\
  (exists b, isValid s = Return b).
Proof.
  unfold validate, isValid.
  destruct (parse_cases s) as [(l & _ & Hp)|[m Hp]]; rewrite Hp; cbn.
  - split; [|split; [|split; [|split]]].
    + split; [eauto|reflexivity].
    + intros e. split; discriminate.
    + split; [eauto|reflexivity].
    + split; [discriminate|]. intros [e He]. discriminate He.
    + eauto.
  - split; [|split; [|split; [|split]]].
    + split; [discriminate|]. intros [c Hc]. discriminate Hc.
    + intros e. split; intros [= <-]; reflexivity.
    + split; [discriminate|]. intros [c Hc]. discriminate Hc.
    + split; [eauto|reflexivity].
    + eauto.
Qed.

Lemma validate_isValid_follow_parse_witness :
  validate (str "e4") = Return tt /\
  validate (str "a0") = Throw (CellError LEADING_ZERO) /\
  isValid (str "e4") = Return true /\
  isValid (str "") = Return false.
Proof.
  split; [|split; [|split]].
  - apply (validate_isValid_follow_parse (str "e4")). eexists. reflexivity.
  - apply (validate_isValid_follow_parse (str "a0")). reflexivity.
  - apply (validate_isValid_follow_parse (str "e4")). eexists. reflexivity.
  - apply (validate_isValid_follow_parse (str "")). eexists. reflexivity.
Defined.

(** ** The tokens of the test suite *)

Example parse_e4 : parse (str "e4") = Return (mkCoordinate [4; 3]).
Proof. reflexivity. Qed.

Example parse_a1A : parse (str "a1A") = Return (mkCoordinate [0; 0; 0]).
Proof. reflexivity. Qed.

Example parse_iv256IV :
  parse (str "iv256IV") = Return (mkCoordinate [255; 255; 255]).
Proof. reflexivity. Qed.

Example parse_aa10 : parse (str "aa10") = Return (mkCoordinate [26; 9]).
Proof. reflexivity. Qed.

Example parse_empty : parse (str "") = Throw (CellError EMPTY_INPUT).
Proof. reflexivity. Qed.

Example parse_iv256IVa : parse (str "iv256IVa") = Throw (CellError INPUT_TOO_LONG).
Proof. reflexivity. Qed.

Example parse_A : parse (str "A") = Throw (CellError INVALID_START).
Proof. reflexivity. Qed.

Example parse_aA : parse (str "aA") = Throw (CellError UNEXPECTED_CHARACTER).
Proof. reflexivity. Qed.

Example parse_a0 : parse (str "a0") = Throw (CellError LEADING_ZERO).
Proof. reflexivity. Qed.

Example parse_a257 : parse (str "a257") = Throw (CellError INDEX_OUT_OF_RANGE).
Proof. reflexivity. Qed.

Example parse_iw : parse (str "iw") = Throw (CellError INDEX_OUT_OF_RANGE).
Proof. reflexivity. Qed.

Example parse_a1IW : parse (str "a1IW") = Throw (CellError INDEX_OUT_OF_RANGE).
Proof. reflexivity. Qed.

Example parse_cyrillic_a : parse [1072] = Throw (CellError INVALID_START).
Proof. reflexivity. Qed.

Example parse_combining_acute :
  parse (str "a" ++ [769]) = Throw (CellError UNEXPECTED_CHARACTER).
Proof. reflexivity. Qed.

(** ** Tokens as sequences of runs *)

Lemma classes_disjoint ty ty' c :
  ty <> ty' -> class_of ty' c = true -> class_of ty c = false.
Proof.
  intros Hne Hc.
  destruct ty, ty'; try congruence; cbn in *;
    unfold isLowercase, isDigit, isUppercase in *; lia.
Qed.

Lemma run_of_stops ty ty' run rest :
  ty <> ty' -> run_of ty' run -> stops_at (class_of ty) (run ++ rest).
Proof.
  intros Hne (Hnil & Hall & _).
  destruct run as [|c run]; [congruence|].
  apply Forall_cons in Hall as [Hc _].
  apply stops_at_cons. eapply classes_disjoint; eassumption.
Qed.

Lemma parse_loop_run_length ty acc run rest' :
  run_of ty run -> stops_at (class_of ty) rest' -> (length acc < 3)%nat ->
  parse_loop (length (run ++ rest')) ty acc (run ++ rest') =
  parse_loop (length rest') (next_type ty) (acc ++ [decode_of ty run]) rest'.
Proof.
  intros Hrun Hstop Hacc.
  assert (Hlen : exists k, length (run ++ rest') = S k /\ (length rest' <= k)%nat).
  { destruct run as [|c run]; [destruct Hrun as [Hne _]; congruence|].
    exists (length (run ++ rest')). split; [reflexivity|].
    rewrite length_app. lia. }
  destruct Hlen as (k & -> & Hk).
  rewrite parse_loop_run by assumption.
  apply parse_loop_fuel_irrel; [exact Hk|lia].
Qed.

(** The guards of [parse] pass on a token of at most seven code units that
    starts with a lowercase run, and the loop reads that run. *)
Lemma parse_indices_first_run r1 rest :
  run_of Lowercase r1 -> stops_at isLowercase rest ->
  (length (r1 ++ rest) <= 7)%nat ->
  parse_indices (r1 ++ rest) =
  parse_loop (length rest) Integer [decodeLowercase r1] rest.
Proof.
  intros Hrun Hstop Hlen. unfold parse_indices, MAX_STRING_LENGTH.
  pose proof Hrun as (Hne & Hall & _).
  destruct r1 as [|c r1]; [congruence|].
  apply Forall_cons in Hall as [Hc _]. cbn in Hc.
  destruct (Nat.eqb_spec (length ((c :: r1) ++ rest)) 0) as [H0|_];
    [cbn in H0; lia|].
  destruct (Nat.ltb_spec 7 (length ((c :: r1) ++ rest))); [lia|].
  cbn [app nth]. rewrite Hc. cbn [negb].
  apply (parse_loop_run_length Lowercase [] (c :: r1) rest Hrun Hstop).
  cbn. lia.
Qed.

Lemma parse_one_run r1 :
  run_of Lowercase r1 -> (length r1 <= 7)%nat ->
  parse r1 = Return (mkCoordinate [decodeLowercase r1]).
Proof.
  intros H1 Hlen. unfold parse.
  rewrite <- (app_nil_r r1) at 1.
  rewrite parse_indices_first_run;
    [|exact H1|apply stops_at_nil|rewrite app_nil_r; exact Hlen].
  cbn [length parse_loop bind].
  apply Coordinate_new_map_Int; [cbn; lia|].
  destruct H1 as (_ & _ & _ & Hin). repeat (apply List.Forall_cons; [assumption|]). apply List.Forall_nil.
Qed.

Lemma parse_two_runs r1 r2 :
  run_of Lowercase r1 -> run_of Integer r2 -> (length (r1 ++ r2) <= 7)%nat ->
  parse (r1 ++ r2) =
  Return (mkCoordinate [decodeLowercase r1; decodeInteger r2]).
Proof.
  intros H1 H2 Hlen. unfold parse.
  rewrite parse_indices_first_run; [|exact H1| |exact Hlen].
  2:{ rewrite <- (app_nil_r r2). apply (run_of_stops Lowercase Integer); [discriminate|exact H2]. }
  pose proof (parse_loop_run_length Integer [decodeLowercase r1] r2 []
                H2 (stops_at_nil _)) as Hloop.
  rewrite app_nil_r in Hloop. rewrite Hloop by (cbn; lia).
  cbn [length parse_loop bind app next_type decode_of].
  apply Coordinate_new_map_Int; [cbn; lia|].
  destruct H1 as (_ & _ & _ & Hin1). destruct H2 as (_ & _ & _ & Hin2).
  repeat (apply List.Forall_cons; [assumption|]). apply List.Forall_nil.
Qed.

(** Three runs, then whatever is left: the loop arrives at the rest of the
    input holding the three decoded indices. *)
Lemma parse_indices_three_runs r1 r2 r3 rest :
  run_of Lowercase r1 -> run_of Integer r2 -> run_of Uppercase r3 ->
  stops_at isUppercase rest ->
  (length (r1 ++ r2 ++ r3 ++ rest) <= 7)%nat ->
  parse_indices (r1 ++ r2 ++ r3 ++ rest) =
  parse_loop (length rest) Lowercase
    [decodeLowercase r1; decodeInteger r2; decodeUppercase r3] rest.
Proof.
  intros H1 H2 H3 Hstop Hlen.
  rewrite parse_indices_first_run; [|exact H1| |exact Hlen].
  2:{ apply (run_of_stops Lowercase Integer); [discriminate|exact H2]. }
  rewrite (parse_loop_run_length Integer); [|exact H2| |cbn; lia].
  2:{ apply (run_of_stops Integer Uppercase); [discriminate|exact H3]. }
  rewrite (parse_loop_run_length Uppercase); [|exact H3|exact Hstop|cbn; lia].
  reflexivity.
Qed.

Lemma parse_three_runs r1 r2 r3 :
  run_of Lowercase r1 -> run_of Integer r2 -> run_of Uppercase r3 ->
  (length (r1 ++ r2 ++ r3) <= 7)%nat ->
  parse (r1 ++ r2 ++ r3) =
  Return (mkCoordinate [decodeLowercase r1; decodeInteger r2; decodeUppercase r3]).
Proof.
  intros H1 H2 H3 Hlen. unfold parse.
  pose proof (parse_indices_three_runs r1 r2 r3 [] H1 H2 H3 (stops_at_nil _))
    as Hloop.
  rewrite app_nil_r in Hloop. rewrite Hloop by exact Hlen.
  cbn [length parse_loop bind].
  apply Coordinate_new_map_Int; [cbn; lia|].
  destruct H1 as (_ & _ & _ & Hin1). destruct H2 as (_ & _ & _ & Hin2).
  destruct H3 as (_ & _ & _ & Hin3).
  repeat (apply List.Forall_cons; [assumption|]). apply List.Forall_nil.
Qed.

Lemma parse_four_runs r1 r2 r3 rest :
  run_of Lowercase r1 -> run_of Integer r2 -> run_of Uppercase r3 ->
  rest <> [] -> stops_at isUppercase rest ->
  (length (r1 ++ r2 ++ r3 ++ rest) <= 7)%nat ->
  parse (r1 ++ r2 ++ r3 ++ rest) = Throw (CellError TOO_MANY_DIMENSIONS).
Proof.
  intros H1 H2 H3 Hne Hstop Hlen. unfold parse.
  rewrite parse_indices_three_runs by assumption.
  destruct rest as [|c rest1]; [congruence|].
  cbn [length]. rewrite parse_loop_full by (cbn; lia). reflexivity.
Qed.

(** C7 (as stated, refuted): the eight-character input iv256IVa has three
    runs that decode to three dimensions and one character left, but [parse]
    rejects it for its length, before any run is read. *)
Lemma parse_fourth_run_on_long_input :
  run_of Lowercase (str "iv") /\ run_of Integer (str "256") /\
  run_of Uppercase (str "IV") /\ stops_at isUppercase (str "a") /\
  parse (str "iv" ++ str "256" ++ str "IV" ++ str "a") =
  Throw (CellError INPUT_TOO_LONG).
Proof.
  split; [literal_run|]. split; [literal_run|]. split; [literal_run|].
  split; [|reflexivity].
  apply stops_at_cons. reflexivity.
Qed.

(** C7 (amended): for every input of at most seven characters whose first
    three runs (lowercase, digits, uppercase) decode to three dimensions and
    which has at least one character left, [parse] throws
    [TOO_MANY_DIMENSIONS]; the loop throws it on the dimension count alone,
    whatever the expected alphabet and the remaining input are; and a1Aa is
    such an input. *)
Theorem parse_fourth_run_rejected (r1 r2 r3 rest : jsstring) :
  run_of Lowercase r1 -> run_of Integer r2 -> run_of Uppercase r3 ->
  rest <> [] -> stops_at isUppercase rest ->
  (length (r1 ++ r2 ++ r3 ++ rest) <= 7)%nat ->
  parse (r1 ++ r2 ++ r3 ++ rest) = Throw (CellError TOO_MANY_DIMENSIONS) /\
  (forall fuel ty,
      parse_loop (S fuel) ty
        [decodeLowercase r1; decodeInteger r2; decodeUppercase r3] rest =
      Throw (CellError TOO_MANY_DIMENSIONS)) /\
  parse (str "a1Aa") = Throw (CellError TOO_MANY_DIMENSIONS).
Proof.
  intros H1 H2 H3 Hne Hstop Hlen. split; [|split].
  - apply parse_four_runs; assumption.
  - intros fuel ty. destruct rest as [|c rest1]; [congruence|].
    apply parse_loop_full. cbn. lia.
  - reflexivity.
Qed.

Lemma parse_fourth_run_rejected_witness :
  parse (str "aa" ++ str "27" ++ str "AA" ++ [10]) =
  Throw (CellError TOO_MANY_DIMENSIONS).
Proof.
  apply (parse_fourth_run_rejected (str "aa") (str "27") (str "AA") [10]).
  - literal_run.
  - literal_run.
  - literal_run.
  - discriminate.
  - apply stops_at_cons. reflexivity.
  - cbn. lia.
Defined.

(** ** Code units outside the three classes *)

Lemma parse_not_outside s c x :
  parse s = Return c -> In x s -> ~ outside_classes x.
Proof.
  intros Hc Hin. apply parse_Return in Hc.
  apply parse_indices_Return in Hc as (_ & _ & Hall).
  rewrite List.Forall_forall in Hall. apply Hall. exact Hin.
Qed.

Lemma parse_outside_first c post :
  outside_classes c -> (length (c :: post) <= 7)%nat ->
  parse (c :: post) = Throw (CellError INVALID_START).
Proof.
  intros (Hl & _) Hlen. unfold parse, parse_indices, MAX_STRING_LENGTH.
  destruct (Nat.ltb_spec 7 (length (c :: post))); [lia|].
  cbn. rewrite Hl. reflexivity.
Qed.

Lemma parse_outside_after_token pre c post c0 :
  outside_classes c -> (length (pre ++ c :: post) <= 7)%nat ->
  parse pre = Return c0 -> (dimensions c0 < 3)%nat ->
  parse (pre ++ c :: post) = Throw (CellError UNEXPECTED_CHARACTER).
Proof.
  intros Hout Hlen Hpre Hdim. apply parse_Return in Hpre.
  unfold parse, parse_indices, MAX_STRING_LENGTH in *.
  destruct pre as [|c1 pre1]; [discriminate|].
  destruct (Nat.ltb_spec 7 (length (c1 :: pre1))); [discriminate|].
  destruct (Nat.ltb_spec 7 (length ((c1 :: pre1) ++ c :: post))); [lia|].
  cbn [app length Nat.eqb nth] in *.
  destruct (negb (isLowercase c1)); [discriminate|].
  change (c1 :: pre1 ++ c :: post) with ((c1 :: pre1) ++ c :: post).
  rewrite (parse_loop_app_outside _ _ _ _ _ _ _ post Hpre Hdim Hout);
    [reflexivity|].
  cbn. lia.
Qed.

Lemma parse_outside_after_full_token pre c post c0 :
  outside_classes c -> (length (pre ++ c :: post) <= 7)%nat ->
  parse pre = Return c0 -> dimensions c0 = 3%nat ->
  parse (pre ++ c :: post) = Throw (CellError TOO_MANY_DIMENSIONS).
Proof.
  intros Hout Hlen Hpre Hdim. apply parse_Return in Hpre.
  unfold parse, parse_indices, MAX_STRING_LENGTH in *.
  destruct pre as [|c1 pre1]; [discriminate|].
  destruct (Nat.ltb_spec 7 (length (c1 :: pre1))); [discriminate|].
  destruct (Nat.ltb_spec 7 (length ((c1 :: pre1) ++ c :: post))); [lia|].
  cbn [app length Nat.eqb nth] in *.
  destruct (negb (isLowercase c1)); [discriminate|].
  change (c1 :: pre1 ++ c :: post) with ((c1 :: pre1) ++ c :: post).
  rewrite (parse_loop_app_outside_full _ _ _ _ _ _ _ post Hpre);
    [reflexivity| |exact Hout|cbn; lia].
  unfold dimensions in Hdim. lia.
Qed.

Lemma parse_outside_after_failure pre c post e :
  outside_classes c -> (length (pre ++ c :: post) <= 7)%nat ->
  pre <> [] -> parse pre = Throw e ->
  parse (pre ++ c :: post) = Throw e.
Proof.
  intros Hout Hlen Hne Hpre.
  apply parse_Throw_indices. apply parse_Throw_indices in Hpre.
  unfold parse_indices, MAX_STRING_LENGTH in *.
  destruct pre as [|c1 pre1]; [congruence|].
  destruct (Nat.ltb_spec 7 (length ((c1 :: pre1) ++ c :: post))); [lia|].
  destruct (Nat.ltb_spec 7 (length (c1 :: pre1)));
    [rewrite length_app in *; cbn in *; lia|].
  cbn [app length Nat.eqb nth] in *.
  destruct (negb (isLowercase c1)); [exact Hpre|].
  change (c1 :: pre1 ++ c :: post) with ((c1 :: pre1) ++ c :: post).
  apply (parse_loop_app_outside_Throw _ _ _ _ _ _ _ post Hpre Hout).
  cbn. lia.
Qed.

(** C6 (as stated, refuted): a line feed after the token a1A is rejected
    with [TOO_MANY_DIMENSIONS], neither [UNEXPECTED_CHARACTER] nor
    [INVALID_START]. *)
Lemma parse_outside_after_three_dimensions :
  outside_classes 10 /\
  parse (str "a1A" ++ [10]) = Throw (CellError TOO_MANY_DIMENSIONS).
Proof. split; [repeat split|reflexivity]. Qed.

(** C6 (amended): [parse] never accepts a string containing a character
    outside the classes a-z, 0-9, A-Z: it throws a [CellError]. On more than
    seven characters that is [INPUT_TOO_LONG]. On at most seven, with the
    prefix being the input before the character, it is [INVALID_START] when
    the prefix is empty, [UNEXPECTED_CHARACTER] when [parse] accepts the
    prefix with fewer than three dimensions, [TOO_MANY_DIMENSIONS] when
    [parse] accepts the prefix with three dimensions, and the failure of the
    prefix itself when [parse] rejects the non-empty prefix. *)
Theorem parse_rejects_outside_classes (s : jsstring) (c : Z) :
  In c s -> outside_classes c ->
  (exists m, parse s = Throw (CellError m)) /\
  ((7 < length s)%nat -> parse s = Throw (CellError INPUT_TOO_LONG)) /\
  (forall pre post, s = pre ++ c :: post -> (length s <= 7)%nat ->
     (pre = [] -> parse s = Throw (CellError INVALID_START)) /\
     (forall c0, parse pre = Return c0 -> (dimensions c0 < 3)%nat ->
        parse s = Throw (CellError UNEXPECTED_CHARACTER)) /\
     (forall c0, parse pre = Return c0 -> dimensions c0 = 3%nat ->
        parse s = Throw (CellError TOO_MANY_DIMENSIONS)) /\
     (forall e, pre <> [] -> parse pre = Throw e -> parse s = Throw e)).
Proof.
  intros Hin Hout. split; [|split].
  - destruct (parse_cases s) as [(l & _ & Hp)|Hm]; [|exact Hm].
    destruct (parse_not_outside _ _ _ Hp Hin Hout).
  - intros Hlong. unfold parse, parse_indices, MAX_STRING_LENGTH.
    destruct (Nat.eqb_spec (length s) 0); [lia|].
    destruct (Nat.ltb_spec 7 (length s)); [reflexivity|lia].
  - intros pre post -> Hlen. split; [|split; [|split]].
    + intros ->. apply parse_outside_first; assumption.
    + intros c0 Hpre Hdim. eapply parse_outside_after_token; eassumption.
    + intros c0 Hpre Hdim. eapply parse_outside_after_full_token; eassumption.
    + intros e Hne Hpre. apply parse_outside_after_failure; assumption.
Qed.

Lemma parse_rejects_outside_classes_witness :
  parse [1072] = Throw (CellError INVALID_START) /\
  parse (str "a" ++ 8203 :: str "1") = Throw (CellError UNEXPECTED_CHARACTER) /\
  parse (str "c3C" ++ 9 :: str "x") = Throw (CellError TOO_MANY_DIMENSIONS) /\
  parse (str "aA" ++ [10]) = Throw (CellError UNEXPECTED_CHARACTER) /\
  parse (str "a0" ++ [0]) = Throw (CellError LEADING_ZERO) /\
  parse (str "abcdefg" ++ [13]) = Throw (CellError INPUT_TOO_LONG).
Proof.
  assert (Hout : forall c, c = 1072 \/ c = 8203 \/ c = 9 \/ c = 10 \/ c = 0 \/ c = 13 ->
                           outside_classes c)
    by (intros c [-> | [-> | [-> | [-> | [-> | ->]]]]]; repeat split).
  split; [|split; [|split; [|split; [|split]]]].
  - destruct (parse_rejects_outside_classes [1072] 1072) as (_ & _ & Hsplit).
    + left. reflexivity.
    + apply Hout. auto.
    + destruct (Hsplit [] []) as (Hfirst & _); [reflexivity|cbn; lia|].
      apply Hfirst. reflexivity.
  - destruct (parse_rejects_outside_classes (str "a" ++ 8203 :: str "1") 8203)
      as (_ & _ & Hsplit).
    + right. left. reflexivity.
    + apply Hout. auto.
    + destruct (Hsplit (str "a") (str "1")) as (_ & Hshort & _);
        [reflexivity|cbn; lia|].
      apply (Hshort (mkCoordinate [0])); [reflexivity|cbn; lia].
  - destruct (parse_rejects_outside_classes (str "c3C" ++ 9 :: str "x") 9)
      as (_ & _ & Hsplit).
    + right. right. right. left. reflexivity.
    + apply Hout. auto 6.
    + destruct (Hsplit (str "c3C") (str "x")) as (_ & _ & Hfull & _);
        [reflexivity|cbn; lia|].
      apply (Hfull (mkCoordinate [2; 2; 2])); reflexivity.
  - destruct (parse_rejects_outside_classes (str "aA" ++ [10]) 10)
      as (_ & _ & Hsplit).
    + right. right. left. reflexivity.
    + apply Hout. auto 6.
    + destruct (Hsplit (str "aA") []) as (_ & _ & _ & Hsame);
        [reflexivity|cbn; lia|].
      apply Hsame; [discriminate|reflexivity].
  - destruct (parse_rejects_outside_classes (str "a0" ++ [0]) 0)
      as (_ & _ & Hsplit).
    + right. right. left. reflexivity.
    + apply Hout. auto 8.
    + destruct (Hsplit (str "a0") []) as (_ & _ & _ & Hsame);
        [reflexivity|cbn; lia|].
      apply Hsame; [discriminate|reflexivity].
  - destruct (parse_rejects_outside_classes (str "abcdefg" ++ [13]) 13)
      as (_ & Hlong & _).
    + do 7 right. left. reflexivity.
    + apply Hout. auto 8.
    + apply Hlong. cbn. lia.
Defined.

(** ** Round trip from a Coordinate *)

(** Each encoder writes a run of its alphabet that decodes to the index it
    was given; checked on the 256 indices. *)
Lemma encodeToLower_run v :
  in_range v ->
  run_of Lowercase (encodeToLower v) /\
  decodeLowercase (encodeToLower v) = v /\ (length (encodeToLower v) <= 2)%nat.
Proof.
  intros Hv.
  assert (H : (encodeToLower v <> [] /\
               Forall (fun c => isLowercase c = true) (encodeToLower v)) /\
              decodeLowercase (encodeToLower v) = v /\
              (length (encodeToLower v) <= 2)%nat).
  { revert v Hv. unfold in_range.
    apply (byte_range_forall
             (fun v => (encodeToLower v <> [] /\
                        Forall (fun c => isLowercase c = true) (encodeToLower v)) /\
                       decodeLowercase (encodeToLower v) = v /\
                       (length (encodeToLower v) <= 2)%nat)).
    vm_compute. reflexivity. }
  destruct H as ((Hne & Hall) & Hdec & Hlen).
  repeat split; try assumption; try discriminate;
    cbn [decode_of]; rewrite Hdec; apply Hv.
Qed.

Lemma encodeToUpper_run v :
  in_range v ->
  run_of Uppercase (encodeToUpper v) /\
  decodeUppercase (encodeToUpper v) = v /\ (length (encodeToUpper v) <= 2)%nat.
Proof.
  intros Hv.
  assert (H : (encodeToUpper v <> [] /\
               Forall (fun c => isUppercase c = true) (encodeToUpper v)) /\
              decodeUppercase (encodeToUpper v) = v /\
              (length (encodeToUpper v) <= 2)%nat).
  { revert v Hv. unfold in_range.
    apply (byte_range_forall
             (fun v => (encodeToUpper v <> [] /\
                        Forall (fun c => isUppercase c = true) (encodeToUpper v)) /\
                       decodeUppercase (encodeToUpper v) = v /\
                       (length (encodeToUpper v) <= 2)%nat)).
    vm_compute. reflexivity. }
  destruct H as ((Hne & Hall) & Hdec & Hlen).
  repeat split; try assumption; try discriminate;
    cbn [decode_of]; rewrite Hdec; apply Hv.
Qed.

Lemma encodeToNumber_run v :
  in_range v ->
  run_of Integer (encodeToNumber v) /\
  decodeInteger (encodeToNumber v) = v /\ (length (encodeToNumber v) <= 3)%nat.
Proof.
  intros Hv.
  assert (H : (encodeToNumber v <> [] /\
               Forall (fun c => isDigit c = true) (encodeToNumber v) /\
               head (encodeToNumber v) <> Some 48) /\
              decodeInteger (encodeToNumber v) = v /\
              (length (encodeToNumber v) <= 3)%nat).
  { revert v Hv. unfold in_range.
    apply (byte_range_forall
             (fun v => (encodeToNumber v <> [] /\
                        Forall (fun c => isDigit c = true) (encodeToNumber v) /\
                        head (encodeToNumber v) <> Some 48) /\
                       decodeInteger (encodeToNumber v) = v /\
                       (length (encodeToNumber v) <= 3)%nat)).
    vm_compute. reflexivity. }
  destruct H as ((Hne & Hall & Hzero) & Hdec & Hlen).
  repeat split; try assumption; try (intros _; exact Hzero);
    cbn [decode_of]; rewrite Hdec; apply Hv.
Qed.

Lemma parse_toString l :
  (1 <= length l <= 3)%nat -> Forall in_range l ->
  parse (toString (mkCoordinate l)) = Return (mkCoordinate l).
Proof.
  intros Hlen Hall. unfold toString. cbn [indices].
  destruct l as [|a [|b [|c [|d l]]]]; cbn in Hlen; try lia.
  - apply Forall_cons in Hall as [Ha _].
    destruct (encodeToLower_run a Ha) as (Hra & Hda & Hla).
    cbn [toString_loop Nat.modulo Nat.divmod fst snd Nat.sub app].
    rewrite parse_one_run; [rewrite Hda; reflexivity|exact Hra|lia].
  - apply Forall_cons in Hall as [Ha Hall]. apply Forall_cons in Hall as [Hb _].
    destruct (encodeToLower_run a Ha) as (Hra & Hda & Hla).
    destruct (encodeToNumber_run b Hb) as (Hrb & Hdb & Hlb).
    cbn [toString_loop Nat.modulo Nat.divmod fst snd Nat.sub app].
    rewrite parse_two_runs; [rewrite Hda, Hdb; reflexivity|exact Hra|exact Hrb|].
    rewrite length_app. lia.
  - apply Forall_cons in Hall as [Ha Hall]. apply Forall_cons in Hall as [Hb Hall].
    apply Forall_cons in Hall as [Hc _].
    destruct (encodeToLower_run a Ha) as (Hra & Hda & Hla).
    destruct (encodeToNumber_run b Hb) as (Hrb & Hdb & Hlb).
    destruct (encodeToUpper_run c Hc) as (Hrc & Hdc & Hlc).
    cbn [toString_loop Nat.modulo Nat.divmod fst snd Nat.sub app].
    rewrite <- app_assoc.
    rewrite parse_three_runs;
      [rewrite Hda, Hdb, Hdc; reflexivity|exact Hra|exact Hrb|exact Hrc|].
    rewrite !length_app. lia.
Qed.

Lemma format_map_Int l :
  (1 <= length l <= 3)%nat -> Forall in_range l ->
  format (map Int l) = Return (toString (mkCoordinate l)).
Proof.
  intros Hlen Hall. unfold format.
  rewrite Coordinate_new_map_Int by assumption. reflexivity.
Qed.

(** C2: for every valid Coordinate (one to three indices, each in
    [0, 255]), formatting its indices succeeds and parsing the token
    succeeds with a Coordinate holding the same indices. *)
Theorem parse_format_roundtrip (c : Coordinate) :
  (1 <= dimensions c <= 3)%nat -> Forall in_range (indices c) ->
  exists s c',
    format (map Int (indices c)) = Return s /\
    parse s = Return c' /\ indices c' = indices c.
Proof.
  intros Hlen Hall. destruct c as [l]. cbn [indices dimensions] in *.
  exists (toString (mkCoordinate l)), (mkCoordinate l).
  split; [|split].
  - apply format_map_Int; assumption.
  - apply parse_toString; assumption.
  - reflexivity.
Qed.

Lemma parse_format_roundtrip_witness :
  exists s c',
    format (map Int [255; 255; 255]) = Return s /\
    parse s = Return c' /\ indices c' = [255; 255; 255].
Proof.
  apply (parse_format_roundtrip (mkCoordinate [255; 255; 255])).
  - cbn. lia.
  - repeat (apply List.Forall_cons; [unfold in_range; lia|]). apply List.Forall_nil.
Defined.

(** ** Round trip from a token *)

Lemma format_Return_parse args s :
  format args = Return s -> parse s = Return (mkCoordinate (map int_value args)).
Proof.
  unfold format. intros Hf.
  destruct (Coordinate_new args) as [c| |] eqn:Hc; cbn [bind] in Hf; try discriminate.
  injection Hf as <-.
  apply Coordinate_new_Return in Hc as (Hlen & Hall & Hidx).
  destruct c as [l]. cbn [indices] in Hidx. subst l.
  apply parse_toString.
  - rewrite length_map. exact Hlen.
  - apply Forall_in_range_int_value. exact Hall.
Qed.

(** C1 (the code departs from it): [parse] accepts aaa, a run of three
    lowercase letters, and decodes it from its first two letters as 26;
    [format] writes 26 as aa, so formatting the parsed indices does not give
    the token back, and no call of [format] produces aaa at all. *)
Theorem parse_accepts_noncanonical_token :
  parse (str "aaa") = Return (mkCoordinate [26]) /\
  format (map Int [26]) = Return (str "aa") /\
  str "aa" <> str "aaa" /\
  (forall args, format args <> Return (str "aaa")).
Proof.
  split; [reflexivity|]. split; [reflexivity|]. split; [discriminate|].
  intros args Hf.
  pose proof (format_Return_parse _ _ Hf) as Hp.
  change (parse (str "aaa")) with (Return (mkCoordinate [26])) in Hp.
  injection Hp as Hargs.
  unfold format in Hf.
  destruct (Coordinate_new args) as [c| |] eqn:Hc; cbn [bind] in Hf; try discriminate.
  apply Coordinate_new_Return in Hc as (_ & _ & Hidx).
  destruct c as [l]. cbn [indices] in Hidx. subst l. rewrite <- Hargs in Hf.
  discriminate Hf.
Qed.

(** *** Where the round trip from a token does hold *)

(** What the loop accepts is a sequence of runs, and what it returns are
    their decodings. *)
Lemma parse_loop_runs fuel :
  forall ty acc rest l,
    parse_loop fuel ty acc rest = Return l ->
    exists runs,
      rest = concat runs /\ token_runs ty runs /\ l = acc ++ decode_runs ty runs.
Proof.
  induction fuel as [|fuel IH]; intros ty acc rest l Hl.
  - destruct rest; [|discriminate]. injection Hl as <-.
    exists []. rewrite app_nil_r. repeat split.
  - destruct rest as [|c rest1].
    + injection Hl as <-. exists []. rewrite app_nil_r. repeat split.
    + rewrite parse_loop_unfold in Hl.
      destruct (MAX_DIMENSIONS <=? length acc)%nat; [discriminate|].
      destruct (read_run ty c rest1) as [[index rest']| |] eqn:Hr; cbn [bind] in Hl;
        try discriminate.
      apply read_run_Return in Hr as (run & -> & Hrun & -> & _).
      cbn [fst snd] in Hl.
      apply IH in Hl as (runs & -> & Hruns & ->).
      exists (run :: runs). rewrite <- app_assoc.
      split; [reflexivity|]. split; [|reflexivity]. split; assumption.
Qed.

Lemma decodeInteger_grows tl :
  forall v, 0 <= v -> Forall (fun c => isDigit c = true) tl ->
            v <= fold_left (fun value c => value * 10 + (c - 48)) tl v.
Proof.
  induction tl as [|d tl IH]; intros v Hv Hall; [cbn; lia|].
  apply Forall_cons in Hall as [Hd Hall]. apply isDigit_true in Hd.
  cbn [fold_left]. etransitivity; [|apply IH; [lia|exact Hall]]. lia.
Qed.

Lemma digit_run_length r : run_of Integer r -> (length r <= 3)%nat.
Proof.
  intros (_ & Hall & Hzero & _ & Hhi).
  destruct r as [|d1 [|d2 [|d3 [|d4 tl]]]]; cbn [length]; try lia.
  exfalso.
  apply Forall_cons in Hall as [H1 Hall]. apply Forall_cons in Hall as [H2 Hall].
  apply Forall_cons in Hall as [H3 Hall]. apply Forall_cons in Hall as [H4 Hall].
  apply isDigit_true in H1, H2, H3, H4.
  assert (d1 <> 48) by (intros ->; apply (Hzero eq_refl); reflexivity).
  cbn [decode_of] in Hhi. unfold decodeInteger in Hhi. cbn [fold_left] in Hhi.
  pose proof (decodeInteger_grows tl
                ((((0 * 10 + (d1 - 48)) * 10 + (d2 - 48)) * 10 + (d3 - 48)) * 10
                 + (d4 - 48)) ltac:(lia) Hall).
  lia.
Qed.

(** The ten digits, and the digit runs of up to three of them. *)
Lemma isDigit_In d : isDigit d = true -> In d (map Z.of_nat (seq 48 10)).
Proof.
  intros Hd. apply isDigit_true in Hd.
  apply in_map_iff. exists (Z.to_nat d). split; [lia|]. apply in_seq. lia.
Qed.

Lemma digit_runs_enumerated :
  Forall (fun d1 =>
    (d1 <> 48 -> decodeInteger [d1] <= 255 ->
     encodeToNumber (decodeInteger [d1]) = [d1]) /\
    Forall (fun d2 =>
      (d1 <> 48 -> decodeInteger [d1; d2] <= 255 ->
       encodeToNumber (decodeInteger [d1; d2]) = [d1; d2]) /\
      Forall (fun d3 =>
        d1 <> 48 -> decodeInteger [d1; d2; d3] <= 255 ->
        encodeToNumber (decodeInteger [d1; d2; d3]) = [d1; d2; d3])
        (map Z.of_nat (seq 48 10)))
      (map Z.of_nat (seq 48 10)))
    (map Z.of_nat (seq 48 10)).
Proof.
  match goal with |- ?G => apply (bool_decide_eq_true_1 G) end.
  vm_compute. reflexivity.
Qed.

Lemma digit_run_canonical r :
  run_of Integer r -> encodeToNumber (decodeInteger r) = r.
Proof.
  intros Hrun. pose proof (digit_run_length r Hrun) as Hlen.
  destruct Hrun as (Hne & Hall & Hzero & _ & Hhi). cbn [decode_of] in Hhi.
  specialize (Hzero eq_refl).
  pose proof digit_runs_enumerated as Henum. rewrite List.Forall_forall in Henum.
  destruct r as [|d1 [|d2 [|d3 [|d4 tl]]]]; cbn [length] in Hlen;
    [congruence| | | |lia];
    assert (Hd1 : d1 <> 48) by (intros ->; apply Hzero; reflexivity);
    apply Forall_cons in Hall as [Hin1 Hall];
    destruct (Henum d1 (isDigit_In _ Hin1)) as [H1 Henum2].
  - apply H1; assumption.
  - apply Forall_cons in Hall as [Hin2 _].
    rewrite List.Forall_forall in Henum2.
    destruct (Henum2 d2 (isDigit_In _ Hin2)) as [H2 _].
    apply H2; assumption.
  - apply Forall_cons in Hall as [Hin2 Hall]. apply Forall_cons in Hall as [Hin3 _].
    rewrite List.Forall_forall in Henum2.
    destruct (Henum2 d2 (isDigit_In _ Hin2)) as [_ Henum3].
    rewrite List.Forall_forall in Henum3.
    apply (Henum3 d3 (isDigit_In _ Hin3)); assumption.
Qed.

Lemma lower_run_canonical r :
  run_of Lowercase r -> (length r <= 2)%nat ->
  encodeToLower (decodeLowercase r) = r.
Proof.
  intros (Hne & Hall & _ & Hlo & Hhi) Hlen. cbn [decode_of] in Hlo, Hhi.
  unfold encodeToLower, decodeLowercase, char_at, String_fromCharCode in *.
  destruct r as [|c1 [|c2 [|c3 tl]]]; cbn [length] in Hlen; [congruence| |
    |lia]; cbn [length Nat.eqb nth map] in *.
  - apply Forall_cons in Hall as [H1 _]. apply isLowercase_true in H1.
    destruct (Z.ltb_spec (c1 - 97) 26); [|lia].
    f_equal. rewrite Z.mod_small; lia.
  - apply Forall_cons in Hall as [H1 Hall]. apply Forall_cons in Hall as [H2 _].
    apply isLowercase_true in H1, H2.
    destruct (Z.ltb_spec (26 + (c1 - 97) * 26 + (c2 - 97)) 26); [lia|].
    replace (26 + (c1 - 97) * 26 + (c2 - 97) - 26)
      with ((c1 - 97) * 26 + (c2 - 97)) by lia.
    assert (Hq : ((c1 - 97) * 26 + (c2 - 97)) / 26 = c1 - 97)
      by (symmetry; apply (Z.div_unique _ 26 _ (c2 - 97)); lia).
    assert (Hr : Z.rem ((c1 - 97) * 26 + (c2 - 97)) 26 = c2 - 97)
      by (rewrite Z.rem_mod_nonneg by lia; symmetry;
          apply (Z.mod_unique _ 26 (c1 - 97)); lia).
    rewrite Hq, Hr, !Z.mod_small by lia.
    f_equal; [lia|f_equal; lia].
Qed.

Lemma upper_run_canonical r :
  run_of Uppercase r -> (length r <= 2)%nat ->
  encodeToUpper (decodeUppercase r) = r.
Proof.
  intros (Hne & Hall & _ & Hlo & Hhi) Hlen. cbn [decode_of] in Hlo, Hhi.
  unfold encodeToUpper, decodeUppercase, char_at, String_fromCharCode in *.
  destruct r as [|c1 [|c2 [|c3 tl]]]; cbn [length] in Hlen; [congruence| |
    |lia]; cbn [length Nat.eqb nth map] in *.
  - apply Forall_cons in Hall as [H1 _]. apply isUppercase_true in H1.
    destruct (Z.ltb_spec (c1 - 65) 26); [|lia].
    f_equal. rewrite Z.mod_small; lia.
  - apply Forall_cons in Hall as [H1 Hall]. apply Forall_cons in Hall as [H2 _].
    apply isUppercase_true in H1, H2.
    destruct (Z.ltb_spec (26 + (c1 - 65) * 26 + (c2 - 65)) 26); [lia|].
    replace (26 + (c1 - 65) * 26 + (c2 - 65) - 26)
      with ((c1 - 65) * 26 + (c2 - 65)) by lia.
    assert (Hq : ((c1 - 65) * 26 + (c2 - 65)) / 26 = c1 - 65)
      by (symmetry; apply (Z.div_unique _ 26 _ (c2 - 65)); lia).
    assert (Hr : Z.rem ((c1 - 65) * 26 + (c2 - 65)) 26 = c2 - 65)
      by (rewrite Z.rem_mod_nonneg by lia; symmetry;
          apply (Z.mod_unique _ 26 (c1 - 65)); lia).
    rewrite Hq, Hr, !Z.mod_small by lia.
    f_equal; [lia|f_equal; lia].
Qed.

Lemma run_canonical ty r :
  run_of ty r -> (ty <> Integer -> (length r <= 2)%nat) ->
  encode_of ty (decode_of ty r) = r.
Proof.
  intros Hrun Hshort. destruct ty; cbn [encode_of decode_of].
  - apply lower_run_canonical; [exact Hrun|]. apply Hshort. discriminate.
  - apply digit_run_canonical. exact Hrun.
  - apply upper_run_canonical; [exact Hrun|]. apply Hshort. discriminate.
Qed.

(** X14: every accepted token is a sequence of runs decoding to the returned
    indices, and when no letter run has more than two letters, formatting
    those indices gives the token back. *)
Theorem parse_format_roundtrip_short_runs (s : jsstring) (c : Coordinate) :
  parse s = Return c ->
  exists runs,
    s = concat runs /\ token_runs Lowercase runs /\
    indices c = decode_runs Lowercase runs /\
    (short_letter_runs Lowercase runs ->
     format (map Int (indices c)) = Return s).
Proof.
  intros Hp. apply parse_Return in Hp.
  pose proof (parse_indices_Return _ _ Hp) as (Hlen & Hall & _).
  assert (Hruns : exists runs, s = concat runs /\ token_runs Lowercase runs /\
                               indices c = decode_runs Lowercase runs).
  { unfold parse_indices in Hp.
    destruct (length s =? 0)%nat; [discriminate|].
    destruct (MAX_STRING_LENGTH <? length s)%nat; [discriminate|].
    destruct (negb (isLowercase (nth 0 s 0))); [discriminate|].
    apply parse_loop_runs in Hp. exact Hp. }
  destruct Hruns as (runs & -> & Hruns & Hidx).
  exists runs. repeat split; try assumption.
  intros Hshort. rewrite format_map_Int by assumption.
  f_equal. unfold toString. cbn [indices]. rewrite Hidx in *. clear Hidx Hp Hall.
  destruct runs as [|r1 [|r2 [|r3 [|r4 runs]]]]; cbn in Hlen; try lia;
    cbn [token_runs short_letter_runs next_type] in Hruns, Hshort;
    cbn [decode_runs next_type toString_loop Nat.modulo Nat.divmod fst snd
         Nat.sub app concat].
  - destruct Hruns as (H1 & _). destruct Hshort as (S1 & _).
    pose proof (run_canonical Lowercase r1 H1 S1) as E1.
    cbn [encode_of decode_of] in *. rewrite E1, app_nil_r. reflexivity.
  - destruct Hruns as (H1 & H2 & _). destruct Hshort as (S1 & S2 & _).
    pose proof (run_canonical Lowercase r1 H1 S1) as E1.
    pose proof (run_canonical Integer r2 H2 S2) as E2.
    cbn [encode_of decode_of] in *. rewrite E1, E2, app_nil_r. reflexivity.
  - destruct Hruns as (H1 & H2 & H3 & _). destruct Hshort as (S1 & S2 & S3 & _).
    pose proof (run_canonical Lowercase r1 H1 S1) as E1.
    pose proof (run_canonical Integer r2 H2 S2) as E2.
    pose proof (run_canonical Uppercase r3 H3 S3) as E3.
    cbn [encode_of decode_of] in *.
    rewrite E1, E2, E3, app_nil_r, <- app_assoc. reflexivity.
Qed.

(** ** The array behind [indices] *)

Lemma alloc_lookup x h l h1 :
  alloc x h = (l, h1) ->
  h !! l = None /\ h1 !! l = Some x /\
  forall l', is_Some (h !! l') -> l' <> l /\ h1 !! l' = h !! l'.
Proof.
  unfold alloc. intros [= <- <-].
  assert (Hfresh : h !! fresh (dom h) = None)
    by (apply not_elem_of_dom, is_fresh).
  split; [exact Hfresh|]. split; [apply lookup_insert_eq|].
  intros l' [x' Hx'].
  assert (Hne : l' <> fresh (dom h)) by (intros ->; congruence).
  split; [exact Hne|]. apply lookup_insert_ne. congruence.
Qed.

Lemma Object_freeze_other l h l' :
  l <> l' -> Object_freeze l h !! l' = h !! l'.
Proof.
  intros Hne. unfold Object_freeze.
  destruct (h !! l) as [[a|f]|]; try reflexivity.
  apply lookup_insert_ne. exact Hne.
Qed.

Lemma Object_freeze_settled l h l' x :
  settled x -> h !! l' = Some x -> Object_freeze l h !! l' = Some x.
Proof.
  intros Hx Hl'. destruct (decide (l = l')) as [->|Hne].
  - unfold Object_freeze. rewrite Hl'.
    destruct x as [[vs fr]|f]; [|exact Hl'].
    cbn in Hx. subst fr. rewrite lookup_insert_eq. reflexivity.
  - rewrite Object_freeze_other by exact Hne. exact Hl'.
Qed.

Lemma array_mutate_settled raises l f h l' x :
  settled x -> h !! l' = Some x -> (array_mutate raises l f h).2 !! l' = Some x.
Proof.
  intros Hx Hl'. unfold array_mutate.
  destruct (decide (l = l')) as [->|Hne].
  - rewrite Hl'. destruct x as [[vs fr]|fld]; [|exact Hl'].
    cbn in Hx. subst fr. exact Hl'.
  - destruct (h !! l) as [[a|fld]|]; try exact Hl'.
    destruct (frozen a); [exact Hl'|].
    cbn [snd]. rewrite lookup_insert_ne by exact Hne. exact Hl'.
Qed.

Lemma alloc_settled y h l' x :
  h !! l' = Some x -> (alloc y h).2 !! l' = Some x.
Proof.
  intros Hl'. destruct (alloc y h) as [l h1] eqn:Ha.
  apply alloc_lookup in Ha as (_ & _ & Hold). cbn [snd].
  destruct (Hold l') as [_ ->]; [eauto|exact Hl'].
Qed.

Lemma Coordinate_construct_settled args h l' x :
  settled x -> h !! l' = Some x ->
  (Coordinate_construct args h).2 !! l' = Some x.
Proof.
  intros Hx Hl'. unfold Coordinate_construct.
  destruct (Coordinate_new args) as [c| |]; try exact Hl'.
  destruct (alloc (ArrayObject (mkArray (map Int (indices c)) false)) h)
    as [l h1] eqn:Ha.
  pose proof (alloc_settled (ArrayObject (mkArray (map Int (indices c)) false))
                h l' x Hl') as H1.
  rewrite Ha in H1. cbn [snd] in H1.
  pose proof (Object_freeze_settled l h1 l' x Hx H1) as H2.
  pose proof (alloc_settled (CoordinateInstance l) _ l' x H2) as H3.
  destruct (alloc (CoordinateInstance l) (Object_freeze l h1)) as [o h3].
  exact H3.
Qed.

(** A frozen array and an instance stay what they are under every
    operation. *)
Lemma exec_settled op h l x :
  settled x -> h !! l = Some x -> exec op h !! l = Some x.
Proof.
  intros Hx Hl.
  destruct op; cbn [exec]; try exact Hl.
  - apply Coordinate_construct_settled; assumption.
  - destruct (parse_indices s); try exact Hl.
    apply Coordinate_construct_settled; assumption.
  - apply Coordinate_construct_settled; assumption.
  - apply alloc_settled. exact Hl.
  - apply array_mutate_settled; assumption.
  - apply Object_freeze_settled; assumption.
Qed.

Lemma exec_all_settled ops :
  forall h l x,
    settled x -> h !! l = Some x -> exec_all ops h !! l = Some x.
Proof.
  unfold exec_all.
  induction ops as [|op ops IH]; intros h l x Hx Hl; [exact Hl|].
  cbn [fold_left]. apply IH; [exact Hx|]. apply exec_settled; assumption.
Qed.

Lemma Coordinate_construct_Return args h o h1 :
  Coordinate_construct args h = (Return o, h1) ->
  exists c l,
    Coordinate_new args = Return c /\
    h !! l = None /\ h !! o = None /\
    h1 !! o = Some (CoordinateInstance l) /\
    h1 !! l = Some (ArrayObject (mkArray (map Int (indices c)) true)).
Proof.
  unfold Coordinate_construct.
  destruct (Coordinate_new args) as [c| |]; try discriminate.
  destruct (alloc (ArrayObject (mkArray (map Int (indices c)) false)) h)
    as [l ha] eqn:Ha.
  destruct (alloc (CoordinateInstance l) (Object_freeze l ha)) as [o' h3] eqn:Ho.
  intros [= <- <-]. exists c, l. split; [reflexivity|].
  apply alloc_lookup in Ha as (Hl & Hal & Hold).
  apply alloc_lookup in Ho as (Ho & Hoo & Hkeep).
  assert (Hfrozen : Object_freeze l ha !! l =
                    Some (ArrayObject (mkArray (map Int (indices c)) true))).
  { unfold Object_freeze. rewrite Hal. cbn [contents].
    apply lookup_insert_eq. }
  split; [exact Hl|]. split; [|split; [exact Hoo|]].
  - destruct (h !! o') as [x|] eqn:Hx; [|reflexivity]. exfalso.
    destruct (Hold o') as [Hne Hsame]; [eauto|].
    rewrite Object_freeze_other in Ho by congruence.
    rewrite Hsame, Hx in Ho. discriminate Ho.
  - destruct (Hkeep l) as [_ ->]; [rewrite Hfrozen; eauto|exact Hfrozen].
Qed.

(** C9: the constructor stores in the private field a reference to a new,
    frozen array holding the validated indices. After any sequence of
    operations (constructions, parses, reads, assignments to properties of
    the instance, array creations, attempts to change any array, freezes)
    the getter returns that same reference, the array under it is the same
    frozen array with the same contents, the value read through it is the
    same Coordinate, and an attempt to change the array, whether it ends in a
    [TypeError] or is silently ignored, leaves the heap as it was. *)
Theorem indices_frozen_and_stable
    (args : list number) (h h1 : gmap loc heap_object) (o : loc)
    (ops : list operation) :
  Coordinate_construct args h = (Return o, h1) ->
  let h2 := exec_all ops h1 in
  exists c l,
    Coordinate_new args = Return c /\
    h !! l = None /\ h !! o = None /\
    get_indices o h1 = Return l /\
    h1 !! l = Some (ArrayObject (mkArray (map Int (indices c)) true)) /\
    get_indices o h2 = Return l /\
    h2 !! l = Some (ArrayObject (mkArray (map Int (indices c)) true)) /\
    Coordinate_of o h2 = Some c /\
    (forall raises f,
        array_mutate raises l f h2 =
        ((if raises then Throw TypeError else Return tt), h2)).
Proof.
  intros Hnew h2.
  apply Coordinate_construct_Return in Hnew as (c & l & Hc & Hl & Ho & Ho1 & Hl1).
  pose proof (exec_all_settled ops h1 o (CoordinateInstance l) I Ho1) as Ho2.
  pose proof (exec_all_settled ops h1 l
                (ArrayObject (mkArray (map Int (indices c)) true)) eq_refl Hl1)
    as Hl2.
  fold h2 in Ho2, Hl2.
  exists c, l. unfold get_indices, Coordinate_of, get_indices.
  rewrite Ho1, Ho2, Hl2.
  repeat split; try assumption; try reflexivity.
  - cbn [contents]. rewrite map_int_value_Int. destruct c. reflexivity.
  - intros raises f. unfold array_mutate. rewrite Hl2. reflexivity.
Qed.

Lemma indices_frozen_and_stable_witness :
  let ops := [OpMutate true 1%positive (fun _ => []);
              OpMutate false 1%positive (fun vs => Int 7 :: vs);
              OpNew [Int 0]; OpAssignProperty 2%positive 1%positive;
              OpIndices 2%positive] in
  let h1 := (Coordinate_construct [Int 4; Int 3] ∅).2 in
  let h2 := exec_all ops h1 in
  Coordinate_construct [Int 4; Int 3] ∅ = (Return 2%positive, h1) /\
  get_indices 2%positive h2 = Return 1%positive /\
  h2 !! 1%positive = Some (ArrayObject (mkArray [Int 4; Int 3] true)) /\
  array_mutate false 1%positive (fun vs => vs ++ [Int 9]) h2 = (Return tt, h2).
Proof.
  intros ops h1 h2.
  assert (Hnew : Coordinate_construct [Int 4; Int 3] ∅ = (Return 2%positive, h1))
    by (vm_compute; reflexivity).
  split; [exact Hnew|].
  destruct (indices_frozen_and_stable [Int 4; Int 3] ∅ h1 2%positive ops Hnew)
    as (c & l & Hc & _ & _ & Hg1 & _ & Hg2 & Hl & _ & Hmut).
  vm_compute in Hc. injection Hc as <-.
  assert (Hl1 : l = 1%positive) by (vm_compute in Hg1; congruence).
  subst l. fold h2 in Hg2, Hl, Hmut.
  split; [exact Hg2|]. split; [exact Hl|]. apply (Hmut false).
Defined.

(** * Further properties of the parser, the formatter and the Coordinate *)

(** ** Reading a sequence of runs *)

Lemma decode_runs_length runs :
  forall ty, length (decode_runs ty runs) = length runs.
Proof.
  induction runs as [|r rs IH]; intros ty; [reflexivity|].
  cbn. rewrite IH. reflexivity.
Qed.

Lemma decode_runs_in_range runs :
  forall ty, token_runs ty runs -> Forall in_range (decode_runs ty runs).
Proof.
  induction runs as [|r rs IH]; intros ty Hruns; [apply List.Forall_nil|].
  destruct Hruns as ((_ & _ & _ & Hin) & Hrs).
  apply List.Forall_cons; [exact Hin|]. apply IH. exact Hrs.
Qed.

Lemma next_type_neq ty : ty <> next_type ty.
Proof. destruct ty; discriminate. Qed.

(** Input that starts with a code unit of the expected alphabet does not
    continue the runs before it. *)
Lemma runs_stop_next runs :
  forall ty c tail,
    token_runs ty runs -> class_of (type_after ty runs) c = true ->
    runs_stop ty runs (c :: tail).
Proof.
  induction runs as [|r rs IH]; intros ty c tail Hruns Hc; [exact I|].
  destruct Hruns as (_ & Hrs). cbn [runs_stop type_after] in *.
  destruct rs as [|r2 rs].
  - apply stops_at_cons. apply (classes_disjoint ty (next_type ty));
      [apply next_type_neq|exact Hc].
  - apply IH; assumption.
Qed.

(** The loop reads one well-formed run after the other. *)
Lemma parse_loop_token_runs runs :
  forall ty acc tail,
    token_runs ty runs -> runs_stop ty runs tail ->
    (length acc + length runs <= 3)%nat ->
    parse_loop (length (concat runs ++ tail)) ty acc (concat runs ++ tail) =
    parse_loop (length tail) (type_after ty runs) (acc ++ decode_runs ty runs) tail.
Proof.
  induction runs as [|r rs IH]; intros ty acc tail Hruns Hstop Hlen.
  - cbn. rewrite app_nil_r. reflexivity.
  - destruct Hruns as (Hr & Hrs). cbn [concat length] in *.
    rewrite <- app_assoc.
    rewrite (parse_loop_run_length ty acc r (concat rs ++ tail)); [|exact Hr| |lia].
    + rewrite IH.
      * cbn [type_after decode_runs]. rewrite <- app_assoc. reflexivity.
      * exact Hrs.
      * destruct rs; [exact I|exact Hstop].
      * rewrite length_app. cbn. lia.
    + destruct rs as [|r2 rs].
      * cbn. exact Hstop.
      * cbn [concat]. rewrite <- app_assoc.
        apply (run_of_stops ty (next_type ty)); [apply next_type_neq|].
        destruct Hrs as (Hr2 & _). exact Hr2.
Qed.

(** The three guards of [parse] pass on an input of one to seven code units
    that starts with a lowercase letter. *)
Lemma parse_indices_guards s :
  (1 <= length s <= 7)%nat -> isLowercase (nth 0 s 0) = true ->
  parse_indices s = parse_loop (length s) Lowercase [] s.
Proof.
  intros Hlen Hfirst. unfold parse_indices, MAX_STRING_LENGTH.
  destruct (Nat.eqb_spec (length s) 0); [lia|].
  destruct (Nat.ltb_spec 7 (length s)); [lia|].
  rewrite Hfirst. reflexivity.
Qed.

Lemma run_of_first_class ty r tail :
  run_of ty r -> class_of ty (nth 0 (r ++ tail) 0) = true.
Proof.
  intros (Hne & Hall & _). destruct r as [|c r]; [congruence|].
  apply Forall_cons in Hall as [Hc _]. exact Hc.
Qed.

Lemma run_of_length ty r : run_of ty r -> (1 <= length r)%nat.
Proof. intros (Hne & _). destruct r; [congruence|cbn; lia]. Qed.

Lemma parse_indices_token_runs runs tail :
  token_runs Lowercase runs -> runs_stop Lowercase runs tail ->
  (length runs <= 3)%nat ->
  (1 <= length (concat runs ++ tail) <= 7)%nat ->
  isLowercase (nth 0 (concat runs ++ tail) 0) = true ->
  parse_indices (concat runs ++ tail) =
  parse_loop (length tail) (type_after Lowercase runs)
    (decode_runs Lowercase runs) tail.
Proof.
  intros Hruns Hstop Hn Hlen Hfirst.
  rewrite parse_indices_guards by assumption.
  apply (parse_loop_token_runs runs Lowercase [] tail); [assumption..|].
  cbn. lia.
Qed.

Lemma token_runs_first_lowercase runs tail :
  runs <> [] -> token_runs Lowercase runs ->
  isLowercase (nth 0 (concat runs ++ tail) 0) = true /\
  (1 <= length (concat runs ++ tail))%nat.
Proof.
  intros Hne Hruns. destruct runs as [|r rs]; [congruence|].
  destruct Hruns as (Hr & _). cbn [concat]. rewrite <- app_assoc. split.
  - apply (run_of_first_class Lowercase). exact Hr.
  - apply run_of_length in Hr. rewrite length_app. lia.
Qed.

(** ** The failures of [parse] *)

Lemma read_run_Throw ty charCode rest1 e :
  read_run ty charCode rest1 = Throw e ->
  exists m, e = CellError m /\ loop_failure m.
Proof.
  unfold read_run, loop_failure.
  destruct (negb (class_of ty charCode)); [intros [= <-]; eauto 6|].
  destruct (match ty with Integer => charCode =? 48 | _ => false end);
    [intros [= <-]; eauto 6|].
  destruct (collect (class_of ty) [charCode] rest1) as [chars rest'].
  destruct (_ || _); [intros [= <-]; eauto 6|discriminate].
Qed.

Lemma parse_loop_Throw fuel :
  forall ty acc rest e,
    parse_loop fuel ty acc rest = Throw e ->
    exists m, e = CellError m /\ loop_failure m.
Proof.
  induction fuel as [|fuel IH]; intros ty acc rest e.
  - destruct rest; discriminate.
  - destruct rest as [|c rest1]; [discriminate|].
    rewrite parse_loop_unfold.
    destruct (MAX_DIMENSIONS <=? length acc)%nat;
      [intros [= <-]; unfold loop_failure; eauto 6|].
    destruct (read_run ty c rest1) as [[index rest']| |] eqn:Hr; cbn [bind].
    + apply IH.
    + intros [= <-]. eapply read_run_Throw. exact Hr.
    + discriminate.
Qed.

(** X1: each guard failure of [parse] tells what the input was: the empty
    input message is thrown exactly on the empty string, the too-long message
    exactly on more than seven code units, the invalid-start message exactly
    on one to seven code units of which the first is not a lowercase
    letter. *)
Theorem parse_guard_failures (s : jsstring) :
  (parse s = Throw (CellError EMPTY_INPUT) <-> s = []) /\
  (parse s = Throw (CellError INPUT_TOO_LONG) <-> (7 < length s)%nat) /\
  (parse s = Throw (CellError INVALID_START) <->
   (1 <= length s <= 7)%nat /\ isLowercase (nth 0 s 0) = false).
Proof.
  rewrite !parse_Throw_indices. unfold parse_indices, MAX_STRING_LENGTH.
  destruct (Nat.eqb_spec (length s) 0) as [H0|H0].
  { apply length_zero_iff_nil in H0. subst s. cbn.
    split; [split; reflexivity|].
    split; (split; [discriminate|]); [lia|]. intros [Hlen _]. lia. }
  assert (Hne : s <> []) by (intros ->; apply H0; reflexivity).
  destruct (Nat.ltb_spec 7 (length s)) as [H7|H7].
  { split; [split; [discriminate|congruence]|].
    split; [split; [intros _; exact H7|reflexivity]|].
    split; [discriminate|]. intros [Hlen _]. lia. }
  destruct (isLowercase (nth 0 s 0)) eqn:Hfirst; cbn [negb].
  - assert (Hloop : forall m, ~ loop_failure m ->
                parse_loop (length s) Lowercase [] s <> Throw (CellError m)).
    { intros m Hm Hthrow. apply parse_loop_Throw in Hthrow as (m' & [= <-] & Hm').
      exact (Hm Hm'). }
    assert (Hno : forall m, m = EMPTY_INPUT \/ m = INPUT_TOO_LONG \/ m = INVALID_START ->
                parse_loop (length s) Lowercase [] s <> Throw (CellError m)).
    { intros m Hm. apply Hloop. unfold loop_failure.
      destruct Hm as [-> | [-> | ->]]; intros [H|[H|[H|H]]]; discriminate H. }
    split; [split; [|congruence]|split; [split; [|lia]|split]].
    + intros Hthrow. exfalso. revert Hthrow. apply Hno. auto.
    + intros Hthrow. exfalso. revert Hthrow. apply Hno. auto.
    + intros Hthrow. exfalso. revert Hthrow. apply Hno. auto.
    + intros [_ Hf]. discriminate Hf.
  - split; [split; [discriminate|congruence]|].
    split; [split; [discriminate|lia]|].
    split; [intros _; split; [lia|reflexivity]|reflexivity].
Qed.

Lemma parse_guard_failures_witness :
  (7 < length (str "abcdefgh"))%nat /\
  parse (str "abcdefgh") = Throw (CellError INPUT_TOO_LONG) /\
  parse (str "1a") = Throw (CellError INVALID_START).
Proof.
  split; [cbn; lia|]. split.
  - apply (parse_guard_failures (str "abcdefgh")). cbn. lia.
  - apply (parse_guard_failures (str "1a")). split; [cbn; lia|reflexivity].
Defined.

(** X2: [parse] either returns a Coordinate or throws a [CellError] with one
    of seven messages; it never throws the message reserved for a
    construction without indices, nor any other kind of exception. *)
Theorem parse_failure_kinds (s : jsstring) :
  (exists c, parse s = Return c) \/
  (exists m, parse s = Throw (CellError m) /\
             (m = EMPTY_INPUT \/ m = INPUT_TOO_LONG \/ m = INVALID_START \/
              loop_failure m) /\ m <> NO_INDICES).
Proof.
  destruct (parse_cases s) as [(l & _ & Hp)|[m Hm]]; [left; eauto|].
  right. exists m. split; [exact Hm|].
  assert (Hkind : m = EMPTY_INPUT \/ m = INPUT_TOO_LONG \/ m = INVALID_START \/
                  loop_failure m).
  { apply parse_Throw_indices in Hm. unfold parse_indices in Hm.
    destruct (length s =? 0)%nat; [injection Hm as <-; auto|].
    destruct (MAX_STRING_LENGTH <? length s)%nat; [injection Hm as <-; auto|].
    destruct (negb (isLowercase (nth 0 s 0))); [injection Hm as <-; auto|].
    apply parse_loop_Throw in Hm as (m' & [= <-] & Hm'). auto. }
  split; [exact Hkind|].
  unfold loop_failure in Hkind. intros ->.
  destruct Hkind as [H|[H|[H|[H|[H|[H|H]]]]]]; discriminate H.
Qed.

(** ** Where the loop fails *)

Lemma read_run_unexpected ty charCode rest1 :
  class_of ty charCode = false ->
  read_run ty charCode rest1 = Throw (CellError UNEXPECTED_CHARACTER).
Proof. intros Hc. unfold read_run. rewrite Hc. reflexivity. Qed.

Lemma read_run_out_of_range ty charCode run' rest' :
  Forall (fun c => class_of ty c = true) (charCode :: run') ->
  (ty = Integer -> charCode <> 48) ->
  255 < decode_of ty (charCode :: run') ->
  stops_at (class_of ty) rest' ->
  read_run ty charCode (run' ++ rest') = Throw (CellError INDEX_OUT_OF_RANGE).
Proof.
  intros Hall Hzero Hbig Hstop.
  apply Forall_cons in Hall as [Hc Hall].
  unfold read_run. rewrite Hc. cbn [negb].
  assert (Hz : match ty with Integer => charCode =? 48 | _ => false end = false).
  { destruct ty; try reflexivity.
    destruct (Z.eqb_spec charCode 48) as [H48|]; [|reflexivity].
    destruct (Hzero eq_refl H48). }
  rewrite Hz, collect_run by assumption. cbn [app].
  assert (Hr : (decode_of ty (charCode :: run') >? MAX_INDEX_VALUE) = true)
    by (unfold MAX_INDEX_VALUE; lia).
  rewrite Hr, orb_true_r. reflexivity.
Qed.

Lemma runs_stop_nil runs : forall ty, runs_stop ty runs [].
Proof.
  induction runs as [|r rs IH]; intros ty; [exact I|].
  cbn [runs_stop]. destruct rs; [apply stops_at_nil|apply IH].
Qed.

(** The loop, arrived after [runs] at input it cannot read as the next
    run. *)
Lemma parse_after_runs runs c rest :
  token_runs Lowercase runs -> (length runs < 3)%nat ->
  runs_stop Lowercase runs (c :: rest) ->
  (length (concat runs ++ c :: rest) <= 7)%nat ->
  isLowercase (nth 0 (concat runs ++ c :: rest) 0) = true ->
  parse_indices (concat runs ++ c :: rest) =
  do r <- read_run (type_after Lowercase runs) c rest;
  parse_loop (length rest) (next_type (type_after Lowercase runs))
    (decode_runs Lowercase runs ++ [r.1]) r.2.
Proof.
  intros Hruns Hn Hstop Hlen Hfirst.
  rewrite parse_indices_token_runs; try assumption; try lia.
  - cbn [length]. rewrite parse_loop_unfold. unfold MAX_DIMENSIONS.
    rewrite decode_runs_length.
    destruct (Nat.leb_spec 3 (length runs)); [lia|]. reflexivity.
  - split; [|exact Hlen]. rewrite length_app. cbn. lia.
Qed.

(** X3: after one or two well-formed runs, a code unit that neither continues
    the last run nor belongs to the alphabet expected next makes [parse]
    throw the unexpected-character message (inputs of at most seven code
    units). *)
Theorem parse_unexpected_character (runs : list (list Z)) (c : Z) (rest : jsstring) :
  runs <> [] -> token_runs Lowercase runs -> (length runs < 3)%nat ->
  runs_stop Lowercase runs (c :: rest) ->
  class_of (type_after Lowercase runs) c = false ->
  (length (concat runs ++ c :: rest) <= 7)%nat ->
  parse (concat runs ++ c :: rest) = Throw (CellError UNEXPECTED_CHARACTER).
Proof.
  intros Hne Hruns Hn Hstop Hc Hlen.
  apply parse_Throw_indices.
  destruct (token_runs_first_lowercase runs (c :: rest) Hne Hruns) as [Hfirst _].
  rewrite parse_after_runs by assumption.
  rewrite read_run_unexpected by exact Hc. reflexivity.
Qed.

Lemma parse_unexpected_character_witness :
  parse (str "aA") = Throw (CellError UNEXPECTED_CHARACTER) /\
  parse (str "b12c") = Throw (CellError UNEXPECTED_CHARACTER).
Proof.
  split.
  - apply (parse_unexpected_character [str "a"] 65 []).
    + discriminate.
    + split; [literal_run|exact I].
    + cbn. lia.
    + apply stops_at_cons. reflexivity.
    + reflexivity.
    + cbn. lia.
  - apply (parse_unexpected_character [str "b"; str "12"] 99 []).
    + discriminate.
    + split; [literal_run|]. split; [literal_run|exact I].
    + cbn. lia.
    + apply stops_at_cons. reflexivity.
    + reflexivity.
    + cbn. lia.
Defined.

(** X4: when the first lowercase run is well formed (it decodes into
    [0, 255]), a zero right after it makes [parse] throw the leading-zero
    message, whatever follows the zero (inputs of at most seven code units).
    A first run that decodes above 255, as zz, is reported as out of range
    before the zero is read ([parse_index_out_of_range]). *)
Theorem parse_leading_zero (r1 rest : jsstring) :
  run_of Lowercase r1 -> (length (r1 ++ 48%Z :: rest) <= 7)%nat ->
  parse (r1 ++ 48 :: rest) = Throw (CellError LEADING_ZERO).
Proof.
  intros H1 Hlen. apply parse_Throw_indices.
  pose proof (parse_after_runs [r1] 48 rest) as Hafter.
  cbn [concat type_after next_type decode_runs runs_stop token_runs length] in Hafter.
  rewrite app_nil_r in Hafter. rewrite Hafter.
  - reflexivity.
  - split; [exact H1|exact I].
  - lia.
  - apply stops_at_cons. reflexivity.
  - exact Hlen.
  - apply (run_of_first_class Lowercase). exact H1.
Qed.

Lemma parse_leading_zero_witness :
  parse (str "aa" ++ 48 :: str "7") = Throw (CellError LEADING_ZERO).
Proof.
  apply (parse_leading_zero (str "aa") (str "7")).
  - literal_run.
  - cbn. lia.
Defined.

(** X5: after at most two well-formed runs, a run of the expected alphabet
    (without leading zero) that decodes above 255 makes [parse] throw the
    out-of-range message (inputs of at most seven code units). *)
Theorem parse_index_out_of_range (runs : list (list Z)) (run rest : jsstring) :
  token_runs Lowercase runs -> (length runs < 3)%nat ->
  run <> [] ->
  Forall (fun c => class_of (type_after Lowercase runs) c = true) run ->
  (type_after Lowercase runs = Integer -> head run <> Some 48) ->
  255 < decode_of (type_after Lowercase runs) run ->
  stops_at (class_of (type_after Lowercase runs)) rest ->
  (length (concat runs ++ run ++ rest) <= 7)%nat ->
  parse (concat runs ++ run ++ rest) = Throw (CellError INDEX_OUT_OF_RANGE).
Proof.
  intros Hruns Hn Hne Hall Hzero Hbig Hstop Hlen.
  apply parse_Throw_indices.
  destruct run as [|c run']; [congruence|]. cbn [app] in *.
  pose proof Hall as Hc. apply Forall_cons in Hc as [Hc _].
  rewrite parse_after_runs; try assumption.
  - rewrite read_run_out_of_range; try assumption; [reflexivity|].
    intros Hty ->. apply (Hzero Hty). reflexivity.
  - apply runs_stop_next; assumption.
  - destruct runs as [|r rs].
    + cbn. exact Hc.
    + apply token_runs_first_lowercase; [discriminate|exact Hruns].
Qed.

Lemma parse_index_out_of_range_witness :
  parse (str "iw") = Throw (CellError INDEX_OUT_OF_RANGE) /\
  parse (str "a257B") = Throw (CellError INDEX_OUT_OF_RANGE) /\
  parse (str "a1IW") = Throw (CellError INDEX_OUT_OF_RANGE).
Proof.
  split; [|split].
  - apply (parse_index_out_of_range [] (str "iw") []).
    + exact I.
    + cbn. lia.
    + discriminate.
    + repeat (apply List.Forall_cons; [reflexivity|]). apply List.Forall_nil.
    + discriminate.
    + vm_compute. reflexivity.
    + apply stops_at_nil.
    + cbn. lia.
  - apply (parse_index_out_of_range [str "a"] (str "257") (str "B")).
    + split; [literal_run|exact I].
    + cbn. lia.
    + discriminate.
    + repeat (apply List.Forall_cons; [reflexivity|]). apply List.Forall_nil.
    + intros _. cbn. discriminate.
    + vm_compute. reflexivity.
    + apply stops_at_cons. reflexivity.
    + cbn. lia.
  - apply (parse_index_out_of_range [str "a"; str "1"] (str "IW") []).
    + split; [literal_run|]. split; [literal_run|exact I].
    + cbn. lia.
    + discriminate.
    + repeat (apply List.Forall_cons; [reflexivity|]). apply List.Forall_nil.
    + discriminate.
    + vm_compute. reflexivity.
    + apply stops_at_nil.
    + cbn. lia.
Defined.

(** ** The accepted tokens *)

(** X6: [parse] accepts exactly the strings of at most seven code units that
    are one to three consecutive runs, lowercase then digits then uppercase,
    each without leading zero and decoding into [0, 255]; the indices
    returned are the decodings of the runs, in order. *)
Theorem parse_accepts_exactly (s : jsstring) (c : Coordinate) :
  parse s = Return c <->
  exists runs,
    s = concat runs /\ token_runs Lowercase runs /\
    (1 <= length runs <= 3)%nat /\ (length s <= 7)%nat /\
    indices c = decode_runs Lowercase runs.
Proof.
  split.
  - intros Hp. apply parse_Return in Hp.
    pose proof (parse_indices_Return _ _ Hp) as (Hlen & _ & _).
    unfold parse_indices, MAX_STRING_LENGTH in Hp.
    destruct (length s =? 0)%nat; [discriminate|].
    destruct (Nat.ltb_spec 7 (length s)) as [|H7]; [discriminate|].
    destruct (negb (isLowercase (nth 0 s 0))); [discriminate|].
    apply parse_loop_runs in Hp as (runs & -> & Hruns & Hidx).
    cbn [app] in Hidx. exists runs.
    rewrite Hidx, decode_runs_length in Hlen. auto.
  - intros (runs & -> & Hruns & Hn & Hlen & Hidx).
    destruct c as [l]. cbn [indices] in Hidx. subst l.
    assert (Hne : runs <> []) by (intros ->; cbn in Hn; lia).
    destruct (token_runs_first_lowercase runs [] Hne Hruns) as [Hfirst H1].
    rewrite app_nil_r in Hfirst, H1.
    unfold parse.
    pose proof (parse_indices_token_runs runs [] Hruns (runs_stop_nil _ _)) as Hloop.
    rewrite app_nil_r in Hloop. rewrite Hloop; try assumption; try lia.
    cbn [length parse_loop bind].
    apply Coordinate_new_map_Int.
    + rewrite decode_runs_length. exact Hn.
    + apply decode_runs_in_range. exact Hruns.
Qed.

Lemma parse_accepts_exactly_witness :
  parse (str "h" ++ str "8" ++ []) = Return (mkCoordinate [7; 7]).
Proof.
  apply (parse_accepts_exactly (str "h" ++ str "8" ++ []) (mkCoordinate [7; 7])).
  exists [str "h"; str "8"].
  split; [reflexivity|]. split; [split; [literal_run|split; [literal_run|exact I]]|].
  split; [cbn; lia|]. split; [cbn; lia|reflexivity].
Defined.

(** ** Parsing, formatting and parsing again *)

(** X7: whatever [parse] accepts, canonical or not, the token written for the
    parsed Coordinate parses back to the same Coordinate, and [format] on the
    parsed indices writes that token. *)
Theorem parse_toString_parse (s : jsstring) (c : Coordinate) :
  parse s = Return c ->
  parse (toString c) = Return c /\
  format (map Int (indices c)) = Return (toString c).
Proof.
  intros Hp. apply parse_Return in Hp.
  apply parse_indices_Return in Hp as (Hlen & Hall & _).
  destruct c as [l]. cbn [indices] in *. split.
  - apply parse_toString; assumption.
  - apply format_map_Int; assumption.
Qed.

Lemma parse_toString_parse_witness :
  parse (toString (mkCoordinate [26; 26; 26])) = Return (mkCoordinate [26; 26; 26]).
Proof.
  apply (parse_toString_parse (str "aaa27AA") (mkCoordinate [26; 26; 26])).
  reflexivity.
Defined.

(** X8: [format] is injective: two argument lists on which it writes the
    same token are equal. *)
Theorem format_injective (args1 args2 : list number) (s : jsstring) :
  format args1 = Return s -> format args2 = Return s -> args1 = args2.
Proof.
  intros H1 H2.
  assert (Hvalid : forall args, format args = Return s ->
                                args = map Int (map int_value args)).
  { intros args Hf. unfold format in Hf.
    destruct (Coordinate_new args) as [c| |] eqn:Hc; cbn [bind] in Hf;
      try discriminate.
    apply Coordinate_new_Return in Hc as (_ & Hall & _).
    clear -Hall. induction Hall as [|n args (z & -> & _) _ IH]; [reflexivity|].
    cbn. rewrite <- IH. reflexivity. }
  rewrite (Hvalid _ H1), (Hvalid _ H2).
  apply format_Return_parse in H1, H2. rewrite H1 in H2.
  injection H2 as ->. reflexivity.
Qed.

Lemma format_injective_witness :
  [Int 4; Int 3] = [Int 4; Int 3].
Proof.
  apply (format_injective [Int 4; Int 3] [Int 4; Int 3] (str "e4")); reflexivity.
Defined.

Lemma parse_Return_shape s c :
  parse s = Return c ->
  (1 <= length s <= 7)%nat /\ isLowercase (nth 0 s 0) = true /\
  Forall (fun x => in_classes x = true) s.
Proof.
  intros Hp. pose proof (parse_Return _ _ Hp) as Hi.
  split; [|split].
  - unfold parse_indices, MAX_STRING_LENGTH in Hi.
    destruct (Nat.eqb_spec (length s) 0); [discriminate|].
    destruct (Nat.ltb_spec 7 (length s)); [discriminate|]. lia.
  - unfold parse_indices in Hi.
    destruct (length s =? 0)%nat; [discriminate|].
    destruct (MAX_STRING_LENGTH <? length s)%nat; [discriminate|].
    destruct (isLowercase (nth 0 s 0)); [reflexivity|discriminate].
  - apply List.Forall_forall. intros x Hx.
    pose proof (parse_not_outside _ _ _ Hp Hx) as Hout.
    unfold outside_classes, in_classes in *.
    destruct (isLowercase x), (isDigit x), (isUppercase x); try reflexivity.
    destruct Hout. auto.
Qed.

(** X9: every token [format] writes has one to seven code units, all
    letters or digits of the three classes, the first a lowercase letter, and
    is accepted by [validate] and [isValid]. *)
Theorem format_output_valid (args : list number) (s : jsstring) :
  format args = Return s ->
  (1 <= length s <= MAX_STRING_LENGTH)%nat /\
  isLowercase (nth 0 s 0) = true /\
  Forall (fun x => in_classes x = true) s /\
  validate s = Return tt /\ isValid s = Return true.
Proof.
  intros Hf. apply format_Return_parse in Hf.
  destruct (parse_Return_shape _ _ Hf) as (Hlen & Hfirst & Hall).
  unfold validate, isValid. rewrite Hf. cbn [bind try_catch].
  unfold MAX_STRING_LENGTH. auto.
Qed.

Lemma format_output_valid_witness :
  isValid (str "iv256IV") = Return true.
Proof.
  apply (format_output_valid [Int 255; Int 255; Int 255] (str "iv256IV")).
  reflexivity.
Defined.

(** ** The Coordinate and its accessors *)

(** X10: a constructed Coordinate has as many dimensions as values were
    given, [at] returns the given value at each position, and constructing
    again from its indices gives the same Coordinate. *)
Theorem Coordinate_new_accessors (args : list number) (c : Coordinate) :
  Coordinate_new args = Return c ->
  dimensions c = length args /\
  (forall k v, args !! k = Some v ->
     v = Int (int_value v) /\
     Coordinate_at c (Int (Z.of_nat k)) = Return (int_value v)) /\
  Coordinate_new (map Int (indices c)) = Return c.
Proof.
  intros Hc. apply Coordinate_new_Return in Hc as (Hlen & Hall & Hidx).
  destruct c as [l]. cbn [indices] in Hidx. subst l.
  unfold dimensions. cbn [indices]. rewrite length_map.
  split; [reflexivity|]. split.
  - intros k v Hk. split.
    + rewrite List.Forall_forall in Hall.
      destruct (Hall v) as (z & -> & _); [|reflexivity].
      apply list_elem_of_In. apply list_elem_of_lookup. eauto.
    + pose proof (lookup_lt_Some _ _ _ Hk) as Hlt.
      unfold Coordinate_at. cbn [indices Number_isInteger negb num_lt num_ge orb
                                 int_value].
      rewrite length_map.
      destruct (Z.ltb_spec (Z.of_nat k) 0); [lia|].
      destruct (Z.leb_spec (Z.of_nat (length args)) (Z.of_nat k)); [lia|].
      cbn [orb]. rewrite Nat2Z.id.
      change 0 with (int_value (Int 0)). rewrite map_nth.
      rewrite (nth_lookup_Some _ _ (Int 0) _ Hk). reflexivity.
  - apply Coordinate_new_map_Int.
    + rewrite length_map. exact Hlen.
    + apply Forall_in_range_int_value. exact Hall.
Qed.

Lemma Coordinate_new_accessors_witness :
  Coordinate_at (mkCoordinate [4; 3; 2]) (Int (Z.of_nat 2)) = Return 2.
Proof.
  destruct (Coordinate_new_accessors [Int 4; Int 3; Int 2] (mkCoordinate [4; 3; 2])
              eq_refl) as (_ & Hat & _).
  apply (Hat 2%nat (Int 2)). reflexivity.
Defined.

(** ** Letter runs of more than two letters *)

Lemma parse_lowercase_run r :
  r <> [] -> Forall (fun c => isLowercase c = true) r -> (length r <= 7)%nat ->
  parse r =
  if decodeLowercase r >? MAX_INDEX_VALUE
  then Throw (CellError INDEX_OUT_OF_RANGE)
  else Return (mkCoordinate [decodeLowercase r]).
Proof.
  intros Hne Hall Hlen. unfold MAX_INDEX_VALUE.
  destruct (Z.gtb_spec (decodeLowercase r) 255) as [Hbig|Hsmall].
  - apply parse_Throw_indices.
    destruct r as [|c r']; [congruence|].
    pose proof Hall as Hc. apply Forall_cons in Hc as [Hc _].
    pose proof (parse_after_runs [] c r' I) as Hafter.
    cbn [concat app type_after decode_runs length runs_stop nth] in Hafter.
    rewrite Hafter; try assumption; [|lia|exact I].
    rewrite <- (app_nil_r r') at 1.
    rewrite (read_run_out_of_range Lowercase c r' []); try assumption.
    + reflexivity.
    + discriminate.
    + apply stops_at_nil.
  - apply parse_one_run; [|exact Hlen].
    split; [exact Hne|]. split; [exact Hall|]. split; [discriminate|].
    split; [apply decodeLowercase_nonneg; assumption|cbn [decode_of]; lia].
Qed.

(** X11: the letter decoders read the first two letters of a run only, so a
    string of three to seven lowercase letters is parsed exactly as its first
    two letters are: accepted with the same index, or rejected as out of
    range. *)
Theorem letter_runs_read_two_letters (a b : Z) (tl : list Z) :
  decodeLowercase (a :: b :: tl) = decodeLowercase [a; b] /\
  decodeUppercase (a :: b :: tl) = decodeUppercase [a; b] /\
  (Forall (fun c => isLowercase c = true) (a :: b :: tl) ->
   (length (a :: b :: tl) <= 7)%nat ->
   parse (a :: b :: tl) = parse [a; b]).
Proof.
  split; [reflexivity|]. split; [reflexivity|].
  intros Hall Hlen.
  rewrite (parse_lowercase_run (a :: b :: tl)); [|discriminate|exact Hall|exact Hlen].
  rewrite (parse_lowercase_run [a; b]); [reflexivity|discriminate| |cbn; lia].
  apply Forall_cons in Hall as [Ha Hall]. apply Forall_cons in Hall as [Hb _].
  repeat (apply List.Forall_cons; [assumption|]). apply List.Forall_nil.
Qed.

Lemma letter_runs_read_two_letters_witness :
  parse (str "izzzzzz") = parse (str "iz").
Proof.
  apply (letter_runs_read_two_letters 105 122 (str "zzzzz")).
  - repeat (apply List.Forall_cons; [reflexivity|]). apply List.Forall_nil.
  - cbn. lia.
Defined.

(** ** The three alphabets *)

(** X12: on every index in [0, 255] each decoder undoes its encoder, and on
    every run that decodes to an index (of at most two letters for the letter
    alphabets) each encoder undoes its decoder. *)
Theorem alphabet_codec_inverse :
  (forall v, in_range v ->
     decodeLowercase (encodeToLower v) = v /\
     decodeInteger (encodeToNumber v) = v /\
     decodeUppercase (encodeToUpper v) = v) /\
  (forall ty r, run_of ty r -> (ty <> Integer -> (length r <= 2)%nat) ->
     encode_of ty (decode_of ty r) = r).
Proof.
  split.
  - intros v Hv.
    destruct (encodeToLower_run v Hv) as (_ & Hl & _).
    destruct (encodeToNumber_run v Hv) as (_ & Hn & _).
    destruct (encodeToUpper_run v Hv) as (_ & Hu & _).
    auto.
  - intros ty r Hrun Hshort. apply run_canonical; assumption.
Qed.

Lemma alphabet_codec_inverse_witness :
  decodeInteger (encodeToNumber 255) = 255 /\
  encode_of Uppercase (decode_of Uppercase (str "IV")) = str "IV".
Proof.
  destruct alphabet_codec_inverse as [Hdec Henc]. split.
  - apply (Hdec 255). unfold in_range. lia.
  - apply (Henc Uppercase (str "IV")).
    + literal_run.
    + intros _. cbn. lia.
Defined.

(** X13: the three character classes are pairwise disjoint and lie within
    ASCII: a code unit of a class is between 48 and 122, so a control
    character or a code unit from 128 on belongs to none. *)
Theorem character_classes_disjoint (c : Z) :
  (isLowercase c = true -> isDigit c = false /\ isUppercase c = false) /\
  (isDigit c = true -> isLowercase c = false /\ isUppercase c = false) /\
  (isUppercase c = true -> isLowercase c = false /\ isDigit c = false) /\
  (in_classes c = true -> 48 <= c <= 122) /\
  (c < 32 \/ 127 < c -> outside_classes c).
Proof.
  unfold in_classes, outside_classes, isLowercase, isDigit, isUppercase.
  repeat split; intros; lia.
Qed.

Lemma character_classes_disjoint_witness :
  isDigit 97 = false /\ isUppercase 97 = false /\ outside_classes 65345.
Proof.
  destruct (character_classes_disjoint 97) as (Hlow & _).
  destruct (character_classes_disjoint 65345) as (_ & _ & _ & _ & Hout).
  destruct (Hlow eq_refl) as [Hd Hu].
  split; [exact Hd|]. split; [exact Hu|]. apply Hout. right. lia.
Defined.

Lemma message_inj_witness : LEADING_ZERO = LEADING_ZERO.
Proof. apply (message_inj LEADING_ZERO LEADING_ZERO). reflexivity. Defined.

Lemma parse_format_roundtrip_short_runs_witness :
  exists runs,
    str "aa27AA" = concat runs /\ token_runs Lowercase runs /\
    indices (mkCoordinate [26; 26; 26]) = decode_runs Lowercase runs /\
    (short_letter_runs Lowercase runs ->
     format (map Int (indices (mkCoordinate [26; 26; 26]))) =
     Return (str "aa27AA")).
Proof.
  apply (parse_format_roundtrip_short_runs (str "aa27AA")
           (mkCoordinate [26; 26; 26])).
  reflexivity.
Defined.
